(** * worm.py: a recursive literal-text search, embedded and verified

    The development follows [worm.py] function by function.  Python [str]
    values are modelled by [string] (characters are code points below 256),
    character offsets by [nat], general Python integers by [Z].  The library
    calls the program relies on ([re.escape], [re.finditer], slicing,
    [pathlib.Path.suffix], [str.lower], [os.path.join], [os.path.relpath],
    [os.walk]) are modelled from their CPython definitions (POSIX flavour). *)

From Stdlib Require Import String Ascii List ZArith Lia Bool Arith Sorted.
Import ListNotations.
Open Scope list_scope.
Open Scope string_scope.

(** ** Python strings *)

Module PyStr.

(** [s[n:]] for [0 <= n]. *)
Fixpoint drop (n : nat) (s : string) : string :=
  match n, s with
  | O, _ => s
  | S _, EmptyString => EmptyString
  | S n', String _ s' => drop n' s'
  end.

(** [s[:n]] for [0 <= n]. *)
Fixpoint take (n : nat) (s : string) : string :=
  match n, s with
  | O, _ => EmptyString
  | S _, EmptyString => EmptyString
  | S n', String c s' => String c (take n' s')
  end.

(** [s.startswith(q)]. *)
Fixpoint startswith (q s : string) : bool :=
  match q, s with
  | EmptyString, _ => true
  | String _ _, EmptyString => false
  | String a q', String b s' => Ascii.eqb a b && startswith q' s'
  end.

(** Slice index normalisation, as [PySlice_AdjustIndices] does for step 1:
    a negative index counts from the end, then the index is clamped to
    [0 .. len]. *)
Definition adjust (len i : Z) : Z :=
  if (i <? 0)%Z then Z.max 0 (i + len) else Z.min i len.

(** [s[start:stop]] for arbitrary integers; never raises. *)
Definition slice (s : string) (start stop : Z) : string :=
  let len := Z.of_nat (String.length s) in
  let lo := adjust len start in
  let hi := adjust len stop in
  take (Z.to_nat (hi - lo)) (drop (Z.to_nat lo) s).

(** [str.lower] on one character (code points below 256: the ASCII
    capitals and the Latin-1 capitals, the multiplication sign excepted). *)
Definition lower_char (c : ascii) : ascii :=
  let n := nat_of_ascii c in
  if (((65 <=? n) && (n <=? 90))
      || ((192 <=? n) && (n <=? 222) && negb (n =? 215)))%nat
  then ascii_of_nat (n + 32) else c.

(** [s.lower()]. *)
Fixpoint lower (s : string) : string :=
  match s with
  | EmptyString => EmptyString
  | String c s' => String (lower_char c) (lower s')
  end.

(** [s.rfind('.')]: the index of the last dot, if any. *)
Fixpoint rfind_dot (s : string) : option nat :=
  match s with
  | EmptyString => None
  | String c s' =>
      match rfind_dot s' with
      | Some i => Some (S i)
      | None => if Ascii.eqb c "." then Some 0 else None
      end
  end.

(** [x in xs] for a set of strings. *)
Definition mem (x : string) (xs : list string) : bool :=
  existsb (String.eqb x) xs.

End PyStr.

(** ** The [re] module, as far as [find_matches] exercises it *)

Module Re.

(** The characters [re.escape] puts a backslash before
    ([_special_chars_map]): [()[]{}?*+-|^$\.&~#], space, tab, newline,
    carriage return, vertical tab and form feed. *)
Definition special_chars : list ascii :=
  [ "("; ")"; "["; "]"; "{"; "}"; "?"; "*"; "+"; "-"; "|"; "^"; "$";
    "\"; "."; "&"; "~"; "#"; " "; "009"; "010"; "013"; "011"; "012" ]%char.

Definition is_special (c : ascii) : bool :=
  existsb (Ascii.eqb c) special_chars.

(** [re.escape(pattern)]: [pattern.translate(_special_chars_map)]. *)
Fixpoint escape (pattern : string) : string :=
  match pattern with
  | EmptyString => EmptyString
  | String c rest =>
      if is_special c then String "\" (String c (escape rest))
      else String c (escape rest)
  end.

(** *** Pattern syntax

    The fragment of the pattern language that is modelled: literals, [.],
    the anchors [^] and [$], the greedy repeats [*], [+], [?] on a
    single-character item, and alternation.  Groups, classes, counted and
    lazy repeats are outside the fragment: the parser answers [None] on
    them, as it does on patterns [sre_parse] rejects. *)

Inductive charset : Type :=
| LITERAL (c : ascii)
| ANY.

Inductive repeat : Type := ONCE | MAX_STAR | MAX_PLUS | MAX_OPT.

Inductive item : Type :=
| CHARS (r : repeat) (cs : charset)
| AT_BEGINNING
| AT_END.

Definition branch : Type := list item.
Definition pattern : Type := list branch.

(** The tokenizer of [sre_parse]: a backslash and the character after it
    form one token. *)
Inductive token : Type :=
| TChar (c : ascii)
| TEsc (c : ascii).

Fixpoint tokenize_aux (pending : bool) (s : string) : option (list token) :=
  match s with
  | EmptyString => if pending then None else Some []
  | String c rest =>
      if pending then option_map (cons (TEsc c)) (tokenize_aux false rest)
      else if Ascii.eqb c "\" then tokenize_aux true rest
      else option_map (cons (TChar c)) (tokenize_aux false rest)
  end.

Definition tokenize : string -> option (list token) := tokenize_aux false.

Definition is_ascii_alnum (c : ascii) : bool :=
  let n := nat_of_ascii c in
  (((48 <=? n) && (n <=? 57)) || ((65 <=? n) && (n <=? 90))
   || ((97 <=? n) && (n <=? 122)))%nat.

(** What a token stands for. *)
Inductive meaning : Type :=
| MItem (i : item)
| MRepeat (r : repeat)
| MBar
| MUnsupported.

Definition meaning_of (t : token) : meaning :=
  match t with
  | TEsc c =>
      (* a backslash before a letter or digit is a class, an anchor, a
         back-reference or an error; before anything else it quotes *)
      if is_ascii_alnum c then MUnsupported
      else MItem (CHARS ONCE (LITERAL c))
  | TChar c =>
      if Ascii.eqb c "." then MItem (CHARS ONCE ANY)
      else if Ascii.eqb c "^" then MItem AT_BEGINNING
      else if Ascii.eqb c "$" then MItem AT_END
      else if Ascii.eqb c "*" then MRepeat MAX_STAR
      else if Ascii.eqb c "+" then MRepeat MAX_PLUS
      else if Ascii.eqb c "?" then MRepeat MAX_OPT
      else if Ascii.eqb c "|" then MBar
      else if Ascii.eqb c "(" || Ascii.eqb c ")" || Ascii.eqb c "["
              || Ascii.eqb c "{" then MUnsupported
      else MItem (CHARS ONCE (LITERAL c))
  end.

(** [parse_tokens ts cur done]: [cur] is the current branch and [done] the
    finished alternatives, both in reverse. *)
Fixpoint parse_tokens (ts : list token) (cur : branch) (done : list branch)
  : option pattern :=
  match ts with
  | [] => Some (rev (rev cur :: done))
  | t :: ts' =>
      match meaning_of t with
      | MItem i => parse_tokens ts' (i :: cur) done
      | MRepeat r =>
          match cur with
          | CHARS ONCE cs :: cur' => parse_tokens ts' (CHARS r cs :: cur') done
          | _ => None   (* nothing to repeat, multiple repeat, lazy repeat *)
          end
      | MBar => parse_tokens ts' [] (rev cur :: done)
      | MUnsupported => None
      end
  end.

(** [re.compile(pattern)], on the fragment. *)
Definition compile (p : string) : option pattern :=
  match tokenize p with
  | Some ts => parse_tokens ts [] []
  | None => None
  end.

(** *** Matching *)

Definition newline : ascii := "010"%char.

Definition accepts (cs : charset) (c : ascii) : bool :=
  match cs with
  | LITERAL d => Ascii.eqb c d
  | ANY => negb (Ascii.eqb c newline)
  end.

(** [$] matches at the end of the text and before a final newline. *)
Definition at_end (s : string) : bool :=
  match s with
  | EmptyString => true
  | String c EmptyString => Ascii.eqb c newline
  | _ => false
  end.

Definition orelse {A} (x y : option A) : option A :=
  match x with Some _ => x | None => y end.

(** [match_branch its start must_advance s pos]: the backtracking matcher
    on one alternative.  [s] is the text from [pos] on; the answer is the
    end of the first match in priority order.  With [must_advance] a match
    that ends where the search started is rejected and the matcher
    backtracks, as [SRE_OP_SUCCESS] does. *)
Fixpoint match_branch (its : branch) (start : nat) (must_advance : bool)
  : string -> nat -> option nat :=
  match its with
  | [] => fun _ pos =>
      if must_advance && (pos =? start)%nat then None else Some pos
  | it :: rest =>
      let k := match_branch rest start must_advance in
      match it with
      | AT_BEGINNING => fun s pos => if (pos =? 0)%nat then k s pos else None
      | AT_END => fun s pos => if at_end s then k s pos else None
      | CHARS r cs =>
          let star :=
            fix star (s : string) (pos : nat) {struct s} : option nat :=
              match s with
              | String c s' =>
                  if accepts cs c then orelse (star s' (S pos)) (k s pos)
                  else k s pos
              | EmptyString => k s pos
              end in
          match r with
          | ONCE => fun s pos =>
              match s with
              | String c s' => if accepts cs c then k s' (S pos) else None
              | EmptyString => None
              end
          | MAX_OPT => fun s pos =>
              match s with
              | String c s' =>
                  if accepts cs c then orelse (k s' (S pos)) (k s pos)
                  else k s pos
              | EmptyString => k s pos
              end
          | MAX_STAR => star
          | MAX_PLUS => fun s pos =>
              match s with
              | String c s' => if accepts cs c then star s' (S pos) else None
              | EmptyString => None
              end
          end
      end
  end.

(** Alternatives are tried from left to right. *)
Fixpoint match_at (p : pattern) (must_advance : bool) (s : string) (pos : nat)
  : option nat :=
  match p with
  | [] => None
  | b :: p' =>
      orelse (match_branch b pos must_advance s pos)
             (match_at p' must_advance s pos)
  end.

(** [m.start() for m in re.finditer(p, text)].

    The scanner searches from the end of the previous match for the
    leftmost position where the pattern matches.  After an empty match it
    sets [must_advance], so that the next match is not the same empty one:
    at that position only a non-empty match is accepted, from the next
    position on any match is.  [scan p s pos skip] is that loop by
    recursion on the rest [s] of the text at [pos]; [skip] counts the
    characters still inside the last match. *)
Fixpoint scan (p : pattern) (s : string) (pos skip : nat) {struct s}
  : list nat :=
  let next k :=
    match s with
    | EmptyString => []
    | String _ s' => scan p s' (S pos) k
    end in
  match skip with
  | S k => next k
  | O =>
      match match_at p false s pos with
      | None => next 0
      | Some e =>
          pos ::
          (if (e =? pos)%nat then
             match match_at p true s pos with
             | Some e' => pos :: next (e' - pos - 1)
             | None => next 0
             end
           else next (e - pos - 1))
      end
  end.

Definition finditer_starts (p : pattern) (text : string) : list nat :=
  scan p text 0 0.

End Re.

(** ** Exceptions *)

(** A call either returns or raises; [Raise e] carries [str(e)]. *)
Inductive result (A : Type) : Type :=
| Ok (a : A)
| Raise (e : string).
Arguments Ok {A} a.
Arguments Raise {A} e.

(** ** worm.py *)

(** [sanitize_search_term(term)] *)
Definition sanitize_search_term (term : string) : string :=
  Re.escape term.

(** [find_matches(content, query)]: [re.finditer] compiles the pattern and
    raises [re.error] when that fails. *)
Definition find_matches (content query : string) : result (list nat) :=
  let pattern := sanitize_search_term query in
  match Re.compile pattern with
  | Some p => Ok (Re.finditer_starts p content)
  | None => Raise "re.error"
  end.

(** [format_snippet(content, index, context=50)] *)
Definition format_snippet (content : string) (index context : Z) : string :=
  let start := Z.max 0 (index - context) in
  let end_ := Z.min (Z.of_nat (String.length content)) (index + context) in
  "..." ++ PyStr.slice content start end_ ++ "...".

(** ** [os.path], POSIX flavour *)

Module OsPath.

Definition sep : ascii := "/"%char.

Fixpoint endswith_sep (s : string) : bool :=
  match s with
  | EmptyString => false
  | String c EmptyString => Ascii.eqb c sep
  | String _ s' => endswith_sep s'
  end.

Definition isabs (s : string) : bool :=
  match s with
  | String c _ => Ascii.eqb c sep
  | EmptyString => false
  end.

(** [os.path.join(a, b)] *)
Definition join (a b : string) : string :=
  if isabs b then b
  else if String.eqb a "" || endswith_sep a then a ++ b
  else a ++ String sep b.

(** [s.split('/')]; the answer is never empty. *)
Fixpoint split (s : string) : list string :=
  match s with
  | EmptyString => [ "" ]
  | String c s' =>
      if Ascii.eqb c sep then "" :: split s'
      else match split s' with
           | h :: t => String c h :: t
           | [] => [ String c "" ]
           end
  end.

(** ['/'.join(comps)] *)
Definition join_sep (comps : list string) : string :=
  String.concat (String sep "") comps.

(** The loop of [normpath] over the components; [new_comps] is kept in
    reverse. *)
Fixpoint norm_comps (initial_slashes : nat) (comps new_comps : list string)
  : list string :=
  match comps with
  | [] => rev new_comps
  | comp :: rest =>
      if String.eqb comp "" || String.eqb comp "." then
        norm_comps initial_slashes rest new_comps
      else if negb (String.eqb comp "..")
              || ((initial_slashes =? 0)%nat
                  && match new_comps with [] => true | _ => false end)
              || match new_comps with
                 | last :: _ => String.eqb last ".."
                 | [] => false
                 end
      then norm_comps initial_slashes rest (comp :: new_comps)
      else norm_comps initial_slashes rest (tl new_comps)
  end.

(** [os.path.normpath(path)] *)
Definition normpath (path : string) : string :=
  if String.eqb path "" then "."
  else
    let initial_slashes :=
      if isabs path then
        if PyStr.startswith "//" path && negb (PyStr.startswith "///" path)
        then 2 else 1
      else 0 in
    let p := join_sep (norm_comps initial_slashes (split path) []) in
    let p := PyStr.take initial_slashes "//" ++ p in
    if String.eqb p "" then "." else p.

(** [os.path.abspath(path)], with [cwd] for [os.getcwd()]. *)
Definition abspath (cwd path : string) : string :=
  normpath (if isabs path then path else join cwd path).

Definition nonempty (s : string) : bool := negb (String.eqb s "").

Fixpoint common_prefix_len (xs ys : list string) : nat :=
  match xs, ys with
  | x :: xs', y :: ys' =>
      if String.eqb x y then S (common_prefix_len xs' ys') else 0
  | _, _ => 0
  end.

(** [os.path.relpath(path)], relative to the current directory; raises
    [ValueError] on the empty path. *)
Definition relpath (cwd path : string) : result string :=
  if String.eqb path "" then Raise "no path specified"
  else
    let start_list := filter nonempty (split (abspath cwd ".")) in
    let path_list := filter nonempty (split (abspath cwd path)) in
    let i := common_prefix_len start_list path_list in
    let rel_list :=
      (repeat ".." (List.length start_list - i) ++ skipn i path_list)%list in
    match rel_list with
    | [] => Ok "."
    | first :: rest => Ok (fold_left join rest first)
    end.

End OsPath.

(** ** The file system *)

(** A directory as [os.walk] sees it: its sub-directories and its other
    entries, both in listing order.  [Opaque] is a directory [os.walk] lists
    but yields nothing for: a symbolic link (not followed) or one whose
    listing fails (the error is ignored). *)
#[warnings="-register-all"]
Inductive tree : Type :=
| Dir (dirs : list (string * tree)) (files : list string)
| Opaque.

(** [os.walk(top)], top-down.  The caller may edit the list of
    sub-directories of each triple before the walk goes on; [keep] is the
    filter it applies.  The triple shows the list after the edit. *)
Fixpoint os_walk (keep : string -> bool) (top : string) (t : tree)
  : list (string * list string * list string) :=
  match t with
  | Opaque => []
  | Dir dirs files =>
      (top, filter keep (map fst dirs), files)
      :: flat_map (fun d =>
                     if keep (fst d)
                     then os_walk keep (OsPath.join top (fst d)) (snd d)
                     else [])
                  dirs
  end.

(** What the process can observe of its environment: the current directory
    and what reading a path as UTF-8 text gives. *)
Record os_env : Type := {
  getcwd : string;
  read_text : string -> result string
}.

(** [open(path, 'r', encoding='utf-8')] followed by [f.read()].  The empty
    path never names a file. *)
Definition open_read (env : os_env) (path : string) : result string :=
  if String.eqb path "" then Raise "[Errno 2] No such file or directory: ''"
  else read_text env path.

(** ** worm.py, continued *)

Definition EXCLUDE_PATTERNS : list string :=
  [ "node_modules"; ".git"; "dist"; "build"; "__pycache__"; ".pytest_cache";
    "venv"; "env"; "backups" ].

Definition BINARY_EXTENSIONS : list string :=
  [ ".zip"; ".gz"; ".tar"; ".rar"; ".7z";
    ".db"; ".db.bak"; ".sqlite"; ".sqlite3";
    ".jpg"; ".jpeg"; ".png"; ".gif";
    ".pyc"; ".pyo"; ".pyd";
    ".so"; ".dll"; ".dylib";
    ".exe"; ".bin";
    ".bak"; ".log" ].

(** [Path(file).suffix] for a directory entry name [file] (the name is its
    own final component): the part from the last dot on, provided that dot is
    neither the first nor the last character. *)
Definition suffix (name : string) : string :=
  match PyStr.rfind_dot name with
  | Some i =>
      if ((0 <? i) && (i <? String.length name - 1))%nat
      then PyStr.drop i name else ""
  | None => ""
  end.

Definition kept_dir (d : string) : bool :=
  negb (PyStr.mem d EXCLUDE_PATTERNS).

Definition kept_file (file : string) : bool :=
  negb (PyStr.mem (PyStr.lower (suffix file)) BINARY_EXTENSIONS).

(** [find_files(directory)]: the paths it yields, in order. *)
Definition find_files (directory : string) (t : tree) : list string :=
  flat_map (fun '(root, _, files) =>
              map (OsPath.join root) (filter kept_file files))
           (os_walk kept_dir directory t).

(** The dictionary [search_file] returns. *)
Record FileMatch : Type := {
  path : string;
  snippets : list string
}.

Definition context_default : Z := 50.

Definition error_line (path e : string) : string :=
  "Error processing " ++ path ++ ": " ++ e.

(** [search_file(path, query)]: the value returned and the lines printed. *)
Definition search_file (env : os_env) (path query : string)
  : option FileMatch * list string :=
  match open_read env path with
  | Raise e => (None, [error_line path e])
  | Ok content =>
      match find_matches content query with
      | Raise e => (None, [error_line path e])
      | Ok [] => (None, [])
      | Ok matches =>
          match OsPath.relpath (getcwd env) path with
          | Raise e => (None, [error_line path e])
          | Ok rel =>
              (Some {| path := rel;
                       snippets :=
                         map (fun index =>
                                format_snippet content (Z.of_nat index)
                                               context_default)
                             matches |},
               [])
          end
      end
  end.

Definition nl : string := String "010"%char "".
Definition dquote : string := String "034"%char "".

Fixpoint str_mul (s : string) (n : nat) : string :=
  match n with
  | O => ""
  | S n' => s ++ str_mul s n'
  end.

Definition usage_lines : list string :=
  [ "Usage: python worm.py '<search_term>'";
    "Example: python worm.py 'with open(path, " ++ dquote ++ "r" ++ dquote
      ++ ") as f:'" ].

Definition no_matches_line : string := "No matches found.".

(** What [main] prints for one [result]. *)
Definition report (r : FileMatch) : list string :=
  let found := nl ++ "Found in: " ++ path r in
  let contexts := map (fun snippet => "Context: " ++ snippet) (snippets r) in
  found :: (contexts ++ [ str_mul "-" 80 ])%list.

(** The state of the loop of [main]: the flag and the lines printed so far. *)
Record loop_state : Type := {
  results_found : bool;
  stdout : list string
}.

(** One turn of the [for file in find_files('.')] loop. *)
Definition loop_body (env : os_env) (query : string) (st : loop_state)
  (file : string) : loop_state :=
  let (result, printed) := search_file env file query in
  match result with
  | Some r =>
      {| results_found := true;
         stdout := (stdout st ++ printed ++ report r)%list |}
  | None =>
      {| results_found := results_found st;
         stdout := (stdout st ++ printed)%list |}
  end.

Definition run_loop (env : os_env) (query : string) (st : loop_state)
  (files : list string) : loop_state :=
  fold_left (loop_body env query) files st.

(** [main()], with [argv] for [sys.argv] and [t] for the directory the
    process runs in: the lines it prints. *)
Definition main (env : os_env) (t : tree) (argv : list string) : list string :=
  match argv with
  | [ _; query ] =>
      let st0 := {| results_found := false;
                    stdout := [ nl ++ "Searching for: " ++ query ++ nl ] |} in
      let st := run_loop env query st0 (find_files "." t) in
      if results_found st then stdout st
      else (stdout st ++ [ no_matches_line ])%list
  | _ => usage_lines
  end.

(** ** Notions the properties are stated with *)

(** The literal [query] occurs in [content] at offset [i]:
    [content[i : i + len(query)] == query], inside the text. *)
Definition occurs_at (query content : string) (i : nat) : Prop :=
  i + String.length query <= String.length content
  /\ String.substring i (String.length query) content = query.

(** The left-to-right search for non-overlapping occurrences, as a relation:
    from [pos], either nothing occurs any more, or the leftmost occurrence
    [i] at or after [pos] is reported and the search resumes at
    [i + len(query)]. *)
Inductive nonoverlapping (query content : string) : nat -> list nat -> Prop :=
| search_done (pos : nat) :
    (forall i, pos <= i -> ~ occurs_at query content i) ->
    nonoverlapping query content pos []
| search_found (pos i : nat) (rest : list nat) :
    pos <= i ->
    occurs_at query content i ->
    (forall j, pos <= j < i -> ~ occurs_at query content j) ->
    nonoverlapping query content (i + String.length query) rest ->
    nonoverlapping query content pos (i :: rest).

(** The pattern a literal compiles to: one alternative, one [LITERAL] item
    per character. *)
Definition literal_branch (q : string) : Re.branch :=
  map (fun c => Re.CHARS Re.ONCE (Re.LITERAL c)) (list_ascii_of_string q).

(** The token [re.escape] produces for one character. *)
Definition quoted (c : ascii) : Re.token :=
  if Re.is_special c then Re.TEsc c else Re.TChar c.

(** The extension as "what follows the last dot of the name, the dot
    included", with no condition on where that dot stands. *)
Definition ext_after_last_dot (name : string) : string :=
  match PyStr.rfind_dot name with
  | Some i => PyStr.drop i name
  | None => ""
  end.

(** The file [f] lies in [t] below the chain of directories [ds]. *)
Inductive file_at : tree -> list string -> string -> Prop :=
| file_here dirs files f :
    In f files -> file_at (Dir dirs files) [] f
| file_below dirs files d sub ds f :
    In (d, sub) dirs -> file_at sub ds f ->
    file_at (Dir dirs files) (d :: ds) f.

(** The path [os.walk] and [find_files] build for it. *)
Definition path_of (directory : string) (ds : list string) (f : string)
  : string :=
  OsPath.join (fold_left OsPath.join ds directory) f.

(** What one file adds to the output of [main]: the lines [search_file]
    prints, then the report of its result when there is one. *)
Definition file_output (env : os_env) (query file : string) : list string :=
  let (result, printed) := search_file env file query in
  (printed ++ match result with
              | Some r => report r
              | None => []
              end)%list.

(** [search_file] returned a result for the file. *)
Definition file_matches (env : os_env) (query file : string) : bool :=
  match fst (search_file env file query) with
  | Some _ => true
  | None => false
  end.

(** The line [main] announces the query with. *)
Definition header (query : string) : string :=
  nl ++ "Searching for: " ++ query ++ nl.

(** No directory of the chain is pruned. *)
Definition all_kept (ds : list string) : Prop :=
  Forall (fun d => kept_dir d = true) ds.

(** An entry name: not empty, no separator in it. *)
Fixpoint has_sep (s : string) : bool :=
  match s with
  | EmptyString => false
  | String c s' => Ascii.eqb c OsPath.sep || has_sep s'
  end.

Definition is_entry_name (s : string) : bool :=
  negb (String.eqb s "") && negb (has_sep s).

(** Every name in the tree is an entry name. *)
Fixpoint well_named (t : tree) : bool :=
  match t with
  | Opaque => true
  | Dir dirs files =>
      forallb is_entry_name files
      && forallb (fun d => is_entry_name (fst d) && well_named (snd d)) dirs
  end.

(** What [os.path.join] puts before a relative second argument. *)
Definition join_base (a : string) : string :=
  if String.eqb a "" || OsPath.endswith_sep a then a
  else a ++ String OsPath.sep "".

(** ** A small file system for the worked examples *)

(** The tree [./a/x.txt], [./node_modules/y.txt], both files holding
    [hello world]; the file [./b/z.txt] cannot be read. *)
Definition example_tree : tree :=
  Dir [("a", Dir [] ["x.txt"]);
       ("b", Dir [] ["z.txt"]);
       ("node_modules", Dir [] ["y.txt"])] [].

Definition example_env : os_env :=
  {| getcwd := "/home/u";
     read_text := fun p =>
       if String.eqb p "./b/z.txt"
       then Raise "[Errno 13] Permission denied: './b/z.txt'"
       else Ok "hello world" |}.

(** The same, but for what the file below [node_modules] holds. *)
Definition example_env_changed : os_env :=
  {| getcwd := "/home/u";
     read_text := fun p =>
       if String.eqb p "./node_modules/y.txt" then Ok "hello"
       else read_text example_env p |}.

(** The tree without the sub-directories [find_files] prunes. *)
Fixpoint prune_excluded (t : tree) : tree :=
  match t with
  | Opaque => Opaque
  | Dir dirs files =>
      Dir (flat_map (fun d =>
                       if kept_dir (fst d)
                       then [(fst d, prune_excluded (snd d))]
                       else [])
                    dirs)
          files
  end.

(** No character of the string is special to [re.escape]. *)
Fixpoint plain (s : string) : bool :=
  match s with
  | EmptyString => true
  | String c s' => negb (Re.is_special c) && plain s'
  end.

(** No string occurs twice in the list. *)
Fixpoint distinct (l : list string) : bool :=
  match l with
  | [] => true
  | x :: l' => negb (PyStr.mem x l') && distinct l'
  end.

(** In every directory of the tree the files have different names, and so
    have the sub-directories. *)
Fixpoint distinct_names (t : tree) : bool :=
  match t with
  | Opaque => true
  | Dir dirs files =>
      distinct files && distinct (map fst dirs)
      && forallb (fun d => distinct_names (snd d)) dirs
  end.

(** The files [find_files] yields, each with the chain of directories above
    it, in the order of the walk. *)
Fixpoint walk_items (t : tree) : list (list string * string) :=
  match t with
  | Opaque => []
  | Dir dirs files =>
      (map (pair []) (filter kept_file files)
       ++ flat_map (fun d =>
                      if kept_dir (fst d)
                      then map (fun it => (fst d :: fst it, snd it))
                               (walk_items (snd d))
                      else [])
                   dirs)%list
  end.

(** A name a directory listing can hold: an entry name other than [.] and
    [..]. *)
Definition is_proper_name (s : string) : bool :=
  is_entry_name s && negb (String.eqb s ".") && negb (String.eqb s "..").

(** A path component [normpath] keeps: not empty, not [.]. *)
Definition real_comp (c : string) : bool :=
  negb (String.eqb c "" || String.eqb c ".").

(** * Properties *)

(** ** Strings *)

Section StringFacts.

Lemma length_drop n s :
  String.length (PyStr.drop n s) = String.length s - n.
Proof.
  revert s; induction n as [|n IH]; intros [|c s]; simpl; auto with arith.
Qed.

Lemma length_take n s :
  String.length (PyStr.take n s) = Nat.min n (String.length s).
Proof.
  revert s; induction n as [|n IH]; intros [|c s]; simpl; auto.
Qed.

Lemma take_all n s : String.length s <= n -> PyStr.take n s = s.
Proof.
  revert s; induction n as [|n IH]; intros [|c s]; simpl; intros H;
    try reflexivity; try lia.
  f_equal; apply IH; lia.
Qed.

Lemma drop_nil n : PyStr.drop n "" = "".
Proof. destruct n; reflexivity. Qed.

Lemma drop_succ n s c s' :
  PyStr.drop n s = String c s' -> PyStr.drop (S n) s = s'.
Proof.
  revert s; induction n as [|n IH]; intros s H.
  - destruct s; simpl in H; [discriminate | now inversion H].
  - destruct s as [|d s]; [discriminate|]. simpl in H.
    change (PyStr.drop (S n) s = s'). now apply IH.
Qed.

Lemma substring_take_drop n m s :
  String.substring n m s = PyStr.take m (PyStr.drop n s).
Proof.
  revert n m; induction s as [|c s IH]; intros [|n] [|m]; simpl; auto.
  f_equal; apply (IH 0 m).
Qed.

Lemma startswith_take q s :
  PyStr.startswith q s = true <-> PyStr.take (String.length q) s = q.
Proof.
  revert s; induction q as [|a q IH]; intros [|b s]; simpl;
    try (split; [reflexivity | discriminate || reflexivity]).
  - split; discriminate.
  - rewrite andb_true_iff, Ascii.eqb_eq, IH. split.
    + intros [-> ->]; reflexivity.
    + intros H; injection H as -> H; split; [reflexivity | exact H].
Qed.

Lemma startswith_length q s :
  PyStr.startswith q s = true -> String.length q <= String.length s.
Proof.
  revert s; induction q as [|a q IH]; intros [|b s]; simpl; intros H;
    try lia; try discriminate.
  apply andb_true_iff in H as [_ H]. apply IH in H. lia.
Qed.

(** An occurrence, in terms of the rest of the text at the offset. *)
Lemma occurs_at_startswith q content i :
  occurs_at q content i <->
  i <= String.length content
  /\ PyStr.startswith q (PyStr.drop i content) = true.
Proof.
  unfold occurs_at. rewrite substring_take_drop, startswith_take. split.
  - intros [H1 H2]; split; [lia | exact H2].
  - intros [H1 H2]; split; [|exact H2].
    assert (H3 := proj2 (startswith_take q (PyStr.drop i content)) H2).
    apply startswith_length in H3. rewrite length_drop in H3. lia.
Qed.

End StringFacts.

(** ** Escaping neutralises the pattern language *)

Section Escaping.

Ltac each_char c :=
  destruct c as [b0 b1 b2 b3 b4 b5 b6 b7];
  destruct b0, b1, b2, b3, b4, b5, b6, b7.

(** Whatever the character, its quoted form means that character. *)
Lemma meaning_quoted c :
  Re.meaning_of (quoted c) = Re.MItem (Re.CHARS Re.ONCE (Re.LITERAL c)).
Proof. each_char c; reflexivity. Qed.

Lemma backslash_special c :
  Re.is_special c = false -> Ascii.eqb c "\" = false.
Proof. each_char c; intros H; solve [reflexivity | discriminate H]. Qed.

Lemma tokenize_escape q :
  Re.tokenize (Re.escape q) = Some (map quoted (list_ascii_of_string q)).
Proof.
  unfold Re.tokenize. induction q as [|c q IH]; [reflexivity|].
  cbn [Re.escape list_ascii_of_string map]. unfold quoted at 1.
  destruct (Re.is_special c) eqn:E; cbn [Re.tokenize_aux].
  - now rewrite Ascii.eqb_refl, IH.
  - now rewrite (backslash_special c E), IH.
Qed.

Lemma parse_quoted l cur done :
  Re.parse_tokens (map quoted l) cur done
  = Some (rev (rev (rev (map (fun c => Re.CHARS Re.ONCE (Re.LITERAL c)) l)
                    ++ cur) :: done)%list).
Proof.
  revert cur; induction l as [|c l IH]; intros cur; [reflexivity|].
  simpl map. cbn [Re.parse_tokens]. rewrite meaning_quoted, IH.
  cbn [rev]. now rewrite <- app_assoc.
Qed.

(** The escaped query compiles, and to the literal pattern. *)
Lemma compile_escape q :
  Re.compile (Re.escape q) = Some [literal_branch q].
Proof.
  unfold Re.compile, literal_branch. rewrite tokenize_escape, parse_quoted.
  cbn [rev app]. now rewrite app_nil_r, rev_involutive.
Qed.

End Escaping.

(** ** Matching and scanning a literal pattern *)

Section LiteralScan.

Lemma match_literal q start must s pos :
  Re.match_branch (literal_branch q) start must s pos
  = if PyStr.startswith q s
    then if must && (pos + String.length q =? start)%nat then None
         else Some (pos + String.length q)
    else None.
Proof.
  revert s pos; induction q as [|a q IH]; intros s pos.
  - simpl. now rewrite Nat.add_0_r.
  - change (literal_branch (String a q))
      with (Re.CHARS Re.ONCE (Re.LITERAL a) :: literal_branch q).
    cbn [Re.match_branch]. destruct s as [|b s]; [reflexivity|].
    cbn [PyStr.startswith Re.accepts String.length].
    rewrite (Ascii.eqb_sym b a). destruct (Ascii.eqb a b); [|reflexivity].
    rewrite IH. cbn [andb]. now rewrite Nat.add_succ_r.
Qed.

Lemma match_at_literal q must s pos :
  Re.match_at [literal_branch q] must s pos
  = if PyStr.startswith q s
    then if must && (String.length q =? 0)%nat then None
         else Some (pos + String.length q)
    else None.
Proof.
  cbn [Re.match_at]. rewrite match_literal.
  replace (pos + String.length q =? pos)%nat
    with (String.length q =? 0)%nat.
  - now destruct (PyStr.startswith q s), must, (String.length q =? 0)%nat.
  - destruct (Nat.eqb_spec (String.length q) 0) as [E|E];
      symmetry; [apply Nat.eqb_eq | apply Nat.eqb_neq]; lia.
Qed.

(** The scanner on a non-empty literal: report an occurrence and skip over
    it, or move on by one character. *)
Lemma scan_literal_cons a q c s pos :
  Re.scan [literal_branch (String a q)] (String c s) pos 0
  = if PyStr.startswith (String a q) (String c s)
    then pos :: Re.scan [literal_branch (String a q)] s (S pos)
                        (String.length q)
    else Re.scan [literal_branch (String a q)] s (S pos) 0.
Proof.
  cbn [Re.scan]. rewrite !match_at_literal.
  destruct (PyStr.startswith (String a q) (String c s)); [|reflexivity].
  cbn [String.length andb Nat.eqb].
  replace (pos + S (String.length q) =? pos)%nat with false
    by (symmetry; apply Nat.eqb_neq; lia).
  now replace (pos + S (String.length q) - pos - 1)
    with (String.length q) by lia.
Qed.

Lemma scan_literal_nil a q pos :
  Re.scan [literal_branch (String a q)] "" pos 0 = [].
Proof. reflexivity. Qed.

Lemma scan_skip p c s pos k :
  Re.scan p (String c s) pos (S k) = Re.scan p s (S pos) k.
Proof. reflexivity. Qed.

(** The scanner on the empty pattern: an empty match at every position,
    the end of the text included. *)
Lemma scan_empty s pos :
  Re.scan [literal_branch ""] s pos 0 = seq pos (S (String.length s)).
Proof.
  revert pos; induction s as [|c s IH]; intros pos.
  - cbn. now rewrite Nat.eqb_refl.
  - cbn [Re.scan]. rewrite !match_at_literal. cbn -[Re.scan seq].
    rewrite Nat.add_0_r, Nat.eqb_refl, IH. reflexivity.
Qed.

End LiteralScan.

(** ** The search relation *)

Section Search.

Variables query content : string.

Lemma nonoverlapping_skip_one pos l :
  ~ occurs_at query content pos ->
  nonoverlapping query content (S pos) l ->
  nonoverlapping query content pos l.
Proof.
  intros Hpos H; inversion H as [p Hno | p i rest Hle Hocc Hmin Hrest]; subst.
  - apply search_done. intros i Hi Hocc.
    destruct (Nat.eq_dec i pos) as [->|Hne]; [now apply Hpos|].
    apply (Hno i); [lia | exact Hocc].
  - apply search_found; [lia | exact Hocc | | exact Hrest].
    intros j Hj Hocc'.
    destruct (Nat.eq_dec j pos) as [->|Hne]; [now apply Hpos|].
    apply (Hmin j); [lia | exact Hocc'].
Qed.

(** Every reported offset is an occurrence. *)
Lemma nonoverlapping_sound pos l :
  nonoverlapping query content pos l -> Forall (occurs_at query content) l.
Proof. induction 1; constructor; assumption. Qed.

(** The relation determines the list. *)
Lemma nonoverlapping_unique pos l1 l2 :
  nonoverlapping query content pos l1 ->
  nonoverlapping query content pos l2 ->
  l1 = l2.
Proof.
  intros H1; revert l2.
  induction H1 as [pos Hno | pos i rest Hle Hocc Hmin Hrest IH];
    intros l2 H2;
    inversion H2 as [p Hno' | p i' rest' Hle' Hocc' Hmin' Hrest']; subst.
  - reflexivity.
  - exfalso; now apply (Hno i').
  - exfalso; now apply (Hno' i).
  - assert (i = i') as <-.
    { destruct (Nat.lt_trichotomy i i') as [Hlt | [Heq | Hgt]];
        [exfalso; apply (Hmin' i); [lia | exact Hocc] | exact Heq
        | exfalso; apply (Hmin i'); [lia | exact Hocc'] ]. }
    f_equal; now apply IH.
Qed.

Hypothesis query_nonempty : 0 < String.length query.

(** With a non-empty query the offsets grow by at least the length of the
    query from one match to the next. *)
Lemma nonoverlapping_sorted pos l :
  nonoverlapping query content pos l ->
  Forall (le pos) l /\ StronglySorted lt l.
Proof.
  induction 1 as [pos Hno | pos i rest Hle Hocc Hmin Hrest [IH1 IH2]].
  - split; constructor.
  - split.
    + constructor; [exact Hle|].
      eapply Forall_impl; [|exact IH1]. simpl; intros; lia.
    + constructor; [exact IH2|].
      eapply Forall_impl; [|exact IH1]. simpl; intros; lia.
Qed.

(** Every occurrence is reported or overlaps a reported one. *)
Lemma nonoverlapping_covers pos l i :
  nonoverlapping query content pos l ->
  pos <= i -> occurs_at query content i ->
  exists j, In j l /\ j <= i < j + String.length query.
Proof.
  induction 1 as [pos Hno | pos i0 rest Hle Hocc Hmin Hrest IH];
    intros Hi Hoi.
  - exfalso; now apply (Hno i).
  - destruct (Nat.lt_ge_cases i i0) as [Hlt|Hge].
    + exfalso; apply (Hmin i); [lia | exact Hoi].
    + destruct (Nat.lt_ge_cases i (i0 + String.length query)) as [Hin|Hout].
      * exists i0; split; [now left | lia].
      * destruct (IH Hout Hoi) as (j & Hj & Hij).
        exists j; split; [now right | exact Hij].
Qed.

End Search.

(** ** [find_matches] *)

Section FindMatches.

Lemma find_matches_scan content query :
  find_matches content query
  = Ok (Re.scan [literal_branch query] content 0 0).
Proof.
  unfold find_matches, sanitize_search_term. now rewrite compile_escape.
Qed.

Lemma scan_literal_spec a q s :
  forall pos skip content,
    PyStr.drop pos content = s ->
    pos + skip <= String.length content ->
    nonoverlapping (String a q) content (pos + skip)
                   (Re.scan [literal_branch (String a q)] s pos skip).
Proof.
  induction s as [|c s IH]; intros pos skip content Hs Hlen.
  - assert (Hd := length_drop pos content). rewrite Hs in Hd. simpl in Hd.
    assert (skip = 0) as -> by lia. rewrite scan_literal_nil.
    apply search_done. intros i Hi [Hb _]. simpl in Hb. lia.
  - assert (Hd := length_drop pos content). rewrite Hs in Hd. simpl in Hd.
    assert (Hs' := drop_succ _ _ _ _ Hs).
    destruct skip as [|k].
    + rewrite Nat.add_0_r, scan_literal_cons.
      destruct (PyStr.startswith (String a q) (String c s)) eqn:E.
      * assert (Hq := startswith_length _ _ E). simpl in Hq.
        apply search_found.
        -- lia.
        -- apply occurs_at_startswith. rewrite Hs. split; [lia | exact E].
        -- intros j Hj; lia.
        -- replace (pos + String.length (String a q))
             with (S pos + String.length q) by (simpl; lia).
           apply IH; [exact Hs' | lia].
      * apply nonoverlapping_skip_one.
        -- rewrite occurs_at_startswith, Hs, E. intros [_ H]; discriminate.
        -- assert (Hlen' : S pos + 0 <= String.length content) by lia.
           generalize (IH (S pos) 0 content Hs' Hlen').
           now rewrite Nat.add_0_r.
    + rewrite scan_skip.
      replace (pos + S k) with (S pos + k) by lia.
      apply IH; [exact Hs' | lia].
Qed.

(** A non-empty query: [find_matches] is the left-to-right search for
    non-overlapping occurrences. *)
Lemma find_matches_nonempty content query :
  query <> "" ->
  exists l, find_matches content query = Ok l
            /\ nonoverlapping query content 0 l.
Proof.
  intros Hq. destruct query as [|a q]; [contradiction|].
  eexists; split; [apply find_matches_scan|].
  apply (scan_literal_spec a q content 0 0 content); [reflexivity | lia].
Qed.

(** The empty query: every offset, the end of the text included. *)
Lemma find_matches_empty content :
  find_matches content "" = Ok (seq 0 (S (String.length content))).
Proof. rewrite find_matches_scan. now rewrite scan_empty. Qed.

Lemma occurs_at_empty content i :
  occurs_at "" content i <-> i <= String.length content.
Proof.
  unfold occurs_at. rewrite substring_take_drop. simpl.
  rewrite Nat.add_0_r. tauto.
Qed.

Lemma seq_sorted n len : StronglySorted lt (seq n len).
Proof.
  revert n; induction len as [|len IH]; intros n; simpl; constructor.
  - apply IH.
  - apply Forall_forall. intros x Hx. apply in_seq in Hx. lia.
Qed.

(** [find_matches] never raises; what it returns are offsets where the
    query occurs literally, in strictly ascending order. *)
Lemma find_matches_total content query :
  exists l, find_matches content query = Ok l
            /\ Forall (occurs_at query content) l
            /\ StronglySorted lt l.
Proof.
  destruct query as [|a q].
  - exists (seq 0 (S (String.length content))).
    split; [apply find_matches_empty|]. split; [|apply seq_sorted].
    apply Forall_forall. intros i Hi. apply in_seq in Hi.
    apply occurs_at_empty. lia.
  - destruct (find_matches_nonempty content (String a q)) as (l & Hl & Hno);
      [discriminate|].
    exists l. split; [exact Hl|]. split.
    + eapply nonoverlapping_sound; exact Hno.
    + eapply nonoverlapping_sorted; [|exact Hno]. simpl; lia.
Qed.

End FindMatches.

(** ** Claims on [find_matches] *)

Section FindMatchesClaims.

(** The characters of an occurrence are those of the query. *)
Lemma occurs_at_get q content i k :
  occurs_at q content i -> k < String.length q ->
  String.get (k + i) content = String.get k q.
Proof.
  intros [_ H] Hk.
  rewrite <- (substring_correct1 content i (String.length q) k Hk).
  now rewrite H.
Qed.

(** Two occurrences of ["a.b"] that overlap are the same one. *)
Lemma a_dot_b_unbordered content i j :
  occurs_at "a.b" content i -> occurs_at "a.b" content j ->
  j <= i < j + 3 -> i = j.
Proof.
  intros Hi Hj Hij.
  assert (Hi0 := occurs_at_get _ _ _ 0 Hi ltac:(simpl; lia)).
  assert (Hj1 := occurs_at_get _ _ _ 1 Hj ltac:(simpl; lia)).
  assert (Hj2 := occurs_at_get _ _ _ 2 Hj ltac:(simpl; lia)).
  simpl in Hi0, Hj1, Hj2.
  destruct (Nat.eq_dec i j) as [E|E]; [exact E|].
  destruct (Nat.eq_dec i (S j)) as [->|E1];
    [rewrite Hi0 in Hj1; discriminate|].
  assert (i = S (S j)) as -> by lia.
  rewrite Hi0 in Hj2; discriminate.
Qed.

(** C1, as amended: for every content string, [find_matches(content, "")]
    returns every offset from 0 to [len(content)] inclusive, in ascending
    order: the empty query matches at every position, the end of the text
    included. *)
Theorem find_matches_empty_query_everywhere (content : string) :
  find_matches content "" = Ok (seq 0 (S (String.length content))).
Proof. apply find_matches_empty. Qed.

(** C1, as stated, fails: the empty query in the non-empty content ["abc"]
    yields four matches, not zero. *)
Lemma find_matches_empty_query_not_empty :
  find_matches "abc" "" = Ok [0; 1; 2; 3]
  /\ find_matches "abc" "" <> Ok [].
Proof. split; [reflexivity | discriminate]. Qed.

(** C2: [find_matches] treats the query as a literal string.  The escaped
    query compiles to the pattern made of one literal item per character of
    the query (no wildcard, repeat, anchor or alternative is left), every
    offset returned is an offset where the query occurs literally, the
    offsets returned for ["a.b"] are exactly those where the three
    characters ["a.b"] occur, and ["aXb"] (["aXbYc"] for ["a.b*c"])
    produces no match while the literal text produces one at its offset. *)
Theorem find_matches_literal :
  (forall query,
      Re.compile (sanitize_search_term query) = Some [literal_branch query])
  /\ (forall content query,
         exists l, find_matches content query = Ok l
                   /\ Forall (occurs_at query content) l)
  /\ (forall content,
         exists l, find_matches content "a.b" = Ok l
                   /\ forall i, In i l <-> occurs_at "a.b" content i)
  /\ find_matches "aXb" "a.b" = Ok []
  /\ find_matches "aXbYc" "a.b*c" = Ok []
  /\ find_matches "xa.b*c" "a.b*c" = Ok [1].
Proof.
  split; [exact compile_escape|].
  split.
  { intros content query.
    destruct (find_matches_total content query) as (l & Hl & Hocc & _).
    now exists l. }
  split; [|repeat split; reflexivity].
  intros content.
  destruct (find_matches_nonempty content "a.b") as (l & Hl & Hno);
    [discriminate|].
  exists l; split; [exact Hl|]. intros i; split.
  - intros Hi.
    exact (proj1 (Forall_forall _ _) (nonoverlapping_sound _ _ _ _ Hno) i Hi).
  - intros Hocc.
    assert (Hlen : 0 < String.length "a.b") by (simpl; lia).
    destruct (nonoverlapping_covers _ _ Hlen 0 l i Hno (Nat.le_0_l i) Hocc)
      as (j & Hj & Hij).
    assert (Hoj : occurs_at "a.b" content j)
      by exact (proj1 (Forall_forall _ _)
                      (nonoverlapping_sound _ _ _ _ Hno) j Hj).
    now rewrite (a_dot_b_unbordered content i j Hocc Hoj Hij).
Qed.

(** C3: for a non-empty query [find_matches] returns exactly the offsets of
    the left-to-right search for non-overlapping occurrences (the leftmost
    occurrence is reported, and after a match at [i] the search resumes at
    [i + len(query)]); that list is the only one the search allows, it is
    strictly ascending, every occurrence is reported or overlaps a reported
    one, and [find_matches("aaaa", "aa")] is [[0, 2]]. *)
Theorem find_matches_nonoverlapping (content query : string)
  (Hq : query <> "") :
  (exists l,
      find_matches content query = Ok l
      /\ nonoverlapping query content 0 l
      /\ (forall l', nonoverlapping query content 0 l' -> l' = l)
      /\ StronglySorted lt l
      /\ (forall i, occurs_at query content i ->
                    exists j, In j l /\ j <= i < j + String.length query))
  /\ find_matches "aaaa" "aa" = Ok [0; 2].
Proof.
  split; [|reflexivity].
  destruct (find_matches_nonempty content query Hq) as (l & Hl & Hno).
  assert (Hlen : 0 < String.length query)
    by (destruct query; [contradiction | simpl; lia]).
  exists l. split; [exact Hl|]. split; [exact Hno|]. split.
  - intros l' Hl'. exact (nonoverlapping_unique _ _ _ _ _ Hl' Hno).
  - split.
    + exact (proj2 (nonoverlapping_sorted _ _ Hlen _ _ Hno)).
    + intros i Hi.
      exact (nonoverlapping_covers _ _ Hlen 0 l i Hno (Nat.le_0_l i) Hi).
Qed.

Lemma find_matches_nonoverlapping_witness :
  "aa" <> ""
  /\ (exists l,
         find_matches "aaaa" "aa" = Ok l
         /\ nonoverlapping "aa" "aaaa" 0 l
         /\ (forall l', nonoverlapping "aa" "aaaa" 0 l' -> l' = l)
         /\ StronglySorted lt l
         /\ (forall i, occurs_at "aa" "aaaa" i ->
                       exists j, In j l /\ j <= i < j + String.length "aa"))
  /\ find_matches "aaaa" "aa" = Ok [0; 2].
Proof.
  split; [discriminate|].
  apply (find_matches_nonoverlapping "aaaa" "aa"); discriminate.
Defined.

End FindMatchesClaims.

(** ** [format_snippet] *)

Section Snippets.

Local Open Scope Z_scope.

Lemma drop_all n s : (String.length s <= n)%nat -> PyStr.drop n s = "".
Proof.
  revert s; induction n as [|n IH]; intros [|c s]; simpl; intros H;
    try reflexivity; try lia.
  apply IH; lia.
Qed.

Lemma take_nil n : PyStr.take n "" = "".
Proof. destruct n; reflexivity. Qed.

Lemma take_0 s : PyStr.take 0 s = "".
Proof. destruct s; reflexivity. Qed.

(** Slicing between two indices that are not negative: the characters from
    [start] up to [stop], cut at the end of the text. *)
Lemma slice_nonneg s start stop :
  0 <= start -> 0 <= stop ->
  PyStr.slice s start stop
  = String.substring (Z.to_nat start) (Z.to_nat stop - Z.to_nat start) s.
Proof.
  intros Hstart Hstop. unfold PyStr.slice, PyStr.adjust.
  rewrite substring_take_drop.
  destruct (Z.ltb_spec start 0) as [?|_]; [lia|].
  destruct (Z.ltb_spec stop 0) as [?|_]; [lia|].
  destruct (Z_le_gt_dec start (Z.of_nat (String.length s))) as [Hin|Hout].
  - rewrite (Z.min_l start) by lia.
    destruct (Z_le_gt_dec stop (Z.of_nat (String.length s))) as [Hs|Hs].
    + rewrite (Z.min_l stop) by lia. f_equal. lia.
    + rewrite (Z.min_r stop) by lia.
      rewrite !take_all; try reflexivity; rewrite length_drop; lia.
  - rewrite (Z.min_r start) by lia.
    rewrite !drop_all by lia. now rewrite !take_nil.
Qed.

(** An inverted or empty range between indices that are not negative. *)
Lemma slice_inverted s start stop :
  0 <= start -> 0 <= stop -> stop <= start -> PyStr.slice s start stop = "".
Proof.
  intros Hstart Hstop Hinv. rewrite slice_nonneg by assumption.
  rewrite substring_take_drop.
  replace (Z.to_nat stop - Z.to_nat start)%nat with 0%nat by lia.
  apply take_0.
Qed.

(** A negative stop counts from the end of the text. *)
Lemma slice_negative_stop s stop :
  stop < 0 ->
  PyStr.slice s 0 stop
  = PyStr.take (Z.to_nat (Z.of_nat (String.length s) + stop)) s.
Proof.
  intros Hneg. unfold PyStr.slice, PyStr.adjust.
  destruct (Z.ltb_spec stop 0) as [_|?]; [|lia].
  change (0 <? 0) with false. cbv iota.
  rewrite (Z.min_l 0) by lia. simpl PyStr.drop.
  f_equal. lia.
Qed.

Lemma append_assoc (a b c : string) : ((a ++ b) ++ c = a ++ b ++ c)%string.
Proof. induction a as [|x a IH]; simpl; [reflexivity | now rewrite IH]. Qed.

(** C6: for every content, every match offset and every context that is
    not negative (50 by default), [format_snippet] returns ["..."], then
    the characters of the content from [start = max(0, offset - context)]
    up to [end = min(len(content), offset + context)], then ["..."], the
    markers being there in every case; for a match at offset 0 in a
    content shorter than the context the inner substring is the whole
    content. *)
Theorem format_snippet_window (content : string) (offset : nat)
  (context : Z) (Hctx : 0 <= context) :
  let start := Z.max 0 (Z.of_nat offset - context) in
  let end_ := Z.min (Z.of_nat (String.length content))
                    (Z.of_nat offset + context) in
  format_snippet content (Z.of_nat offset) context
  = ("..." ++ String.substring (Z.to_nat start)
                               (Z.to_nat end_ - Z.to_nat start) content
           ++ "...")%string
  /\ (offset = 0%nat -> Z.of_nat (String.length content) < context ->
      format_snippet content (Z.of_nat offset) context
      = ("..." ++ content ++ "...")%string).
Proof.
  intros start end_. unfold format_snippet. fold start. fold end_.
  assert (Hs : 0 <= start) by (subst start; lia).
  assert (He : 0 <= end_) by (subst end_; lia).
  rewrite (slice_nonneg content start end_ Hs He). split; [reflexivity|].
  intros -> Hshort.
  assert (start = 0) as -> by (subst start; lia).
  assert (end_ = Z.of_nat (String.length content)) as ->
    by (subst end_; lia).
  rewrite substring_take_drop. simpl PyStr.drop.
  rewrite take_all by lia. reflexivity.
Qed.

Lemma format_snippet_window_witness :
  0 <= context_default
  /\ format_snippet "hello world" (Z.of_nat 0) context_default
     = "...hello world..."%string.
Proof.
  split; [unfold context_default; lia|].
  apply (format_snippet_window "hello world" 0 context_default);
    [unfold context_default; lia | reflexivity | reflexivity].
Defined.

(** C10, as amended: for every content, every integer offset and every
    context that is not negative, [format_snippet] returns a string (there
    is no failing case) that begins and ends with ["..."]; between the
    markers stands the slice of the content from
    [start = max(0, offset - context)] to
    [end = min(len(content), offset + context)].  [start] is never negative
    and [end] never exceeds the length of the content.  When
    [offset + context >= 0], [end] is not negative, the inner substring is
    made of the characters of the content from [start] up to [end], and an
    empty or inverted range ([end <= start]) gives the empty inner
    substring.  When [offset + context < 0], [start] is 0 and
    [end = offset + context] is negative: it counts from the end of the
    content, and the inner substring is the content without its last
    [-(offset + context)] characters. *)
Theorem format_snippet_total (content : string) (offset context : Z)
  (Hctx : 0 <= context) :
  let start := Z.max 0 (offset - context) in
  let end_ := Z.min (Z.of_nat (String.length content)) (offset + context) in
  let inner := PyStr.slice content start end_ in
  format_snippet content offset context = ("..." ++ inner ++ "...")%string
  /\ PyStr.startswith "..." (format_snippet content offset context) = true
  /\ (exists before,
         format_snippet content offset context
         = (before ++ "...")%string)
  /\ 0 <= start
  /\ end_ <= Z.of_nat (String.length content)
  /\ (0 <= offset + context ->
      0 <= end_
      /\ inner = String.substring (Z.to_nat start)
                                  (Z.to_nat end_ - Z.to_nat start) content
      /\ (end_ <= start -> inner = ""%string))
  /\ (offset + context < 0 ->
      start = 0 /\ end_ = offset + context
      /\ inner = PyStr.take (Z.to_nat (Z.of_nat (String.length content)
                                       + (offset + context))) content).
Proof.
  intros start end_ inner. split; [reflexivity|]. split; [reflexivity|].
  split.
  { exists ("..." ++ inner)%string. unfold format_snippet.
    fold start; fold end_; fold inner. now rewrite append_assoc. }
  split; [subst start; lia|]. split; [subst end_; lia|]. split.
  - intros Hpos.
    assert (Hs : 0 <= start) by (subst start; lia).
    assert (He : 0 <= end_) by (subst end_; lia).
    split; [exact He|]. split.
    + exact (slice_nonneg content start end_ Hs He).
    + intros Hinv. now apply slice_inverted.
  - intros Hneg.
    assert (Hs : start = 0) by (subst start; lia).
    assert (He : end_ = offset + context) by (subst end_; lia).
    split; [exact Hs|]. split; [exact He|].
    subst inner. rewrite Hs, He. now apply slice_negative_stop.
Qed.

Lemma format_snippet_total_witness :
  0 <= 2
  /\ format_snippet "abcdef" 100 2 = "......"%string
  /\ PyStr.startswith "..." (format_snippet "abcdef" 100 2) = true.
Proof.
  split; [lia|].
  destruct (format_snippet_total "abcdef" 100 2 ltac:(lia))
    as (H1 & H2 & _).
  split; [exact H1 | exact H2].
Defined.

(** C10, as stated, fails: at offset [-52] with context 50 the range is
    inverted ([end = -2 <= start = 0]), and the inner substring is
    ["abcd"], not empty. *)
Lemma format_snippet_inverted_range_not_empty :
  format_snippet "abcdef" (-52) 50 = "...abcd..."%string
  /\ Z.min (Z.of_nat (String.length "abcdef")) (-52 + 50)
     <= Z.max 0 (-52 - 50)
  /\ PyStr.slice "abcdef" (Z.max 0 (-52 - 50))
                 (Z.min (Z.of_nat (String.length "abcdef")) (-52 + 50))
     <> ""%string.
Proof. split; [reflexivity|]. split; [simpl; lia | discriminate]. Qed.

End Snippets.

(** ** Paths *)

Section Paths.

Lemma append_nil_r (s : string) : s ++ "" = s.
Proof. induction s as [|c s IH]; simpl; [reflexivity | now rewrite IH]. Qed.

Lemma append_cancel_l (a x y : string) : a ++ x = a ++ y -> x = y.
Proof.
  induction a as [|c a IH]; simpl; intros H; [exact H|].
  injection H as H. now apply IH.
Qed.

Lemma entry_name_spec s :
  is_entry_name s = true -> s <> "" /\ has_sep s = false.
Proof.
  unfold is_entry_name. rewrite andb_true_iff, !negb_true_iff.
  intros [H1 H2]. split; [|exact H2]. now apply String.eqb_neq.
Qed.

Lemma entry_not_abs s : has_sep s = false -> OsPath.isabs s = false.
Proof.
  destruct s as [|c s]; simpl; [reflexivity|].
  now intros H; apply orb_false_iff in H as [H _].
Qed.

Lemma endswith_sep_app a d :
  d <> "" -> OsPath.endswith_sep (a ++ d) = OsPath.endswith_sep d.
Proof.
  intros Hd. induction a as [|c a IH]; [reflexivity|].
  simpl. destruct (a ++ d) eqn:E; [|exact IH].
  destruct a; simpl in E; [contradiction | discriminate].
Qed.

Lemma endswith_sep_entry d : has_sep d = false -> OsPath.endswith_sep d = false.
Proof.
  induction d as [|c d IH]; simpl; [reflexivity|].
  intros H; apply orb_false_iff in H as [Hc Hd].
  destruct d; [exact Hc | now apply IH].
Qed.

Lemma join_entry a d :
  has_sep d = false -> OsPath.join a d = join_base a ++ d.
Proof.
  intros Hd. unfold OsPath.join, join_base.
  rewrite (entry_not_abs d Hd).
  destruct (String.eqb a "" || OsPath.endswith_sep a); [reflexivity|].
  now rewrite append_assoc.
Qed.

Lemma join_base_entry a d :
  is_entry_name d = true ->
  join_base (join_base a ++ d) = join_base a ++ d ++ String OsPath.sep "".
Proof.
  intros Hd. apply entry_name_spec in Hd as [Hne Hsep].
  unfold join_base at 1.
  rewrite (endswith_sep_app _ d Hne), (endswith_sep_entry d Hsep).
  destruct (String.eqb_spec (join_base a ++ d) "") as [E|_].
  - exfalso. destruct (join_base a); simpl in E; [contradiction | discriminate].
  - simpl. now rewrite append_assoc.
Qed.

(** The path of a file below a chain of directories, in one piece. *)
Lemma path_of_join_sep directory ds f :
  Forall (fun d => is_entry_name d = true) ds ->
  is_entry_name f = true ->
  path_of directory ds f
  = join_base directory ++ OsPath.join_sep (ds ++ [f])%list.
Proof.
  intros Hds Hf. revert directory.
  induction Hds as [|d ds Hd Hds IH]; intros directory.
  - unfold path_of; simpl. apply join_entry.
    now apply entry_name_spec in Hf.
  - change (path_of directory (d :: ds) f)
      with (path_of (OsPath.join directory d) ds f).
    rewrite IH, join_entry by (now apply entry_name_spec in Hd).
    rewrite (join_base_entry directory d Hd), !append_assoc.
    unfold OsPath.join_sep. simpl.
    destruct (ds ++ [f])%list eqn:E; [now destruct ds|].
    reflexivity.
Qed.

Lemma split_entry s : has_sep s = false -> OsPath.split s = [s].
Proof.
  induction s as [|c s IH]; simpl; [reflexivity|].
  intros H; apply orb_false_iff in H as [Hc Hs].
  now rewrite Hc, (IH Hs).
Qed.

Lemma split_app_sep x rest :
  has_sep x = false ->
  OsPath.split (x ++ String OsPath.sep rest) = x :: OsPath.split rest.
Proof.
  induction x as [|c x IH]; simpl; intros H.
  - reflexivity.
  - apply orb_false_iff in H as [Hc Hx]. now rewrite Hc, (IH Hx).
Qed.

Lemma split_join_sep l :
  l <> [] -> Forall (fun d => has_sep d = false) l ->
  OsPath.split (OsPath.join_sep l) = l.
Proof.
  intros Hne Hl. induction Hl as [|x l Hx Hl IH]; [contradiction|].
  unfold OsPath.join_sep in *. destruct l as [|y l].
  - simpl. now apply split_entry.
  - change (String.concat (String OsPath.sep "") (x :: y :: l))
      with (x ++ String OsPath.sep
                   (String.concat (String OsPath.sep "") (y :: l))).
    rewrite (split_app_sep _ _ Hx), IH; [reflexivity | discriminate].
Qed.

(** Two files with the same path are the same file. *)
Lemma path_of_inj directory ds f ds' f' :
  Forall (fun d => is_entry_name d = true) ds ->
  is_entry_name f = true ->
  Forall (fun d => is_entry_name d = true) ds' ->
  is_entry_name f' = true ->
  path_of directory ds f = path_of directory ds' f' ->
  ds = ds' /\ f = f'.
Proof.
  intros Hds Hf Hds' Hf' H.
  rewrite !path_of_join_sep in H by assumption.
  apply append_cancel_l in H.
  assert (Hs : forall l g,
             Forall (fun d => is_entry_name d = true) l ->
             is_entry_name g = true ->
             OsPath.split (OsPath.join_sep (l ++ [g])%list)
             = (l ++ [g])%list).
  { intros l g Hl Hg. apply split_join_sep; [now destruct l|].
    apply Forall_app; split.
    - eapply Forall_impl; [|exact Hl].
      intros d Hd; now apply entry_name_spec in Hd.
    - constructor; [now apply entry_name_spec in Hg | constructor]. }
  apply (f_equal OsPath.split) in H.
  rewrite !Hs in H by assumption.
  now apply app_inj_tail in H.
Qed.


End Paths.

(** ** Relative paths *)

Section RelativePaths.

Lemma proper_name_spec s :
  is_proper_name s = true ->
  is_entry_name s = true /\ s <> "." /\ s <> "..".
Proof.
  unfold is_proper_name. rewrite !andb_true_iff, !negb_true_iff.
  intros [[H1 H2] H3]. repeat split; [exact H1 | |]; now apply String.eqb_neq.
Qed.

Lemma proper_entries l :
  Forall (fun s => is_proper_name s = true) l ->
  Forall (fun s => is_entry_name s = true) l.
Proof.
  intros H; eapply Forall_impl; [|exact H].
  intros s Hs; now apply proper_name_spec in Hs.
Qed.

Lemma entries_no_sep l :
  Forall (fun s => is_entry_name s = true) l ->
  Forall (fun s => has_sep s = false) l.
Proof.
  intros H; eapply Forall_impl; [|exact H].
  intros s Hs; now apply entry_name_spec in Hs.
Qed.

Lemma join_sep_cons x l :
  l <> [] ->
  OsPath.join_sep (x :: l) = x ++ String OsPath.sep (OsPath.join_sep l).
Proof. destruct l; [contradiction | reflexivity]. Qed.

Lemma join_sep_app a b :
  a <> [] -> b <> [] ->
  OsPath.join_sep (a ++ b)
  = OsPath.join_sep a ++ String OsPath.sep (OsPath.join_sep b).
Proof.
  intros Ha Hb. induction a as [|x a IH]; [contradiction|].
  destruct a as [|y a].
  - cbn [app]. now rewrite join_sep_cons.
  - change ((x :: y :: a) ++ b)%list with (x :: ((y :: a) ++ b))%list.
    rewrite !join_sep_cons by discriminate.
    rewrite IH by discriminate. now rewrite append_assoc.
Qed.

(** The string after a separator ends in no separator when its last
    component is an entry name. *)
Lemma endswith_sep_join_sep l :
  l <> [] -> Forall (fun s => is_entry_name s = true) l ->
  OsPath.endswith_sep (String OsPath.sep (OsPath.join_sep l)) = false.
Proof.
  intros Hne Hl.
  assert (H : exists pre last,
             OsPath.join_sep l = pre ++ last /\ is_entry_name last = true).
  { induction Hl as [|x l Hx Hl IH]; [contradiction|].
    destruct l as [|y l].
    - exists "", x. now split.
    - destruct (IH ltac:(discriminate)) as (pre & last & Heq & Hlast).
      exists (x ++ String OsPath.sep pre), last. split; [|exact Hlast].
      rewrite join_sep_cons by discriminate.
      rewrite Heq, append_assoc. reflexivity. }
  destruct H as (pre & last & -> & Hlast).
  apply entry_name_spec in Hlast as [Hne' Hsep].
  change (String OsPath.sep (pre ++ last))
    with (String OsPath.sep pre ++ last).
  now rewrite (endswith_sep_app _ last Hne'), (endswith_sep_entry last Hsep).
Qed.

(** [fold_left join] over entry names. *)
Lemma fold_left_join l :
  Forall (fun s => is_entry_name s = true) l ->
  forall acc,
    acc <> "" -> OsPath.endswith_sep acc = false ->
    fold_left OsPath.join l acc
    = match l with
      | [] => acc
      | _ => acc ++ String OsPath.sep (OsPath.join_sep l)
      end.
Proof.
  induction 1 as [|y r Hy Hr IH]; intros acc Hacc Hend; [reflexivity|].
  cbn [fold_left].
  assert (Hy' := entry_name_spec y Hy). destruct Hy' as [Hyne Hysep].
  assert (Hjoin : OsPath.join acc y = acc ++ String OsPath.sep y).
  { unfold OsPath.join. rewrite (entry_not_abs y Hysep), Hend.
    destruct (String.eqb_spec acc "") as [E|_]; [contradiction | reflexivity]. }
  rewrite Hjoin, IH.
  - destruct r as [|z r]; [reflexivity|].
    rewrite (join_sep_cons y (z :: r)) by discriminate.
    now rewrite append_assoc.
  - destruct acc; [contradiction | discriminate].
  - change (acc ++ String OsPath.sep y)
      with (acc ++ (String OsPath.sep "" ++ y)).
    rewrite <- append_assoc.
    now rewrite (endswith_sep_app _ y Hyne), (endswith_sep_entry y Hysep).
Qed.

Lemma norm_comps_filter n comps :
  Forall (fun c => c <> "..") comps ->
  forall acc,
    OsPath.norm_comps n comps acc
    = (rev acc ++ filter real_comp comps)%list.
Proof.
  induction 1 as [|c comps Hc Hcomps IH]; intros acc.
  - simpl. now rewrite app_nil_r.
  - cbn [OsPath.norm_comps filter]. unfold real_comp at 1.
    destruct (String.eqb c "" || String.eqb c "."); cbn [negb].
    + apply IH.
    + apply String.eqb_neq in Hc. rewrite Hc. cbn [negb orb].
      rewrite IH. cbn [rev]. now rewrite <- app_assoc.
Qed.

Lemma filter_real_proper l :
  Forall (fun s => is_proper_name s = true) l -> filter real_comp l = l.
Proof.
  induction 1 as [|x l Hx Hl IH]; [reflexivity|].
  cbn [filter]. rewrite IH.
  apply proper_name_spec in Hx as (He & Hdot & _).
  apply entry_name_spec in He as [Hne _].
  unfold real_comp. apply String.eqb_neq in Hne, Hdot.
  now rewrite Hne, Hdot.
Qed.

Lemma filter_nonempty_entries l :
  Forall (fun s => is_entry_name s = true) l ->
  filter OsPath.nonempty l = l.
Proof.
  induction 1 as [|x l Hx Hl IH]; [reflexivity|].
  cbn [filter]. rewrite IH. apply entry_name_spec in Hx as [Hne _].
  unfold OsPath.nonempty. apply String.eqb_neq in Hne. now rewrite Hne.
Qed.

Lemma common_prefix_len_app l rest :
  OsPath.common_prefix_len l (l ++ rest) = List.length l.
Proof.
  induction l as [|x l IH]; [reflexivity|].
  simpl. now rewrite String.eqb_refl, IH.
Qed.

(** The components of an absolute path made of names. *)
Lemma split_rooted l :
  Forall (fun s => has_sep s = false) l ->
  filter OsPath.nonempty (OsPath.split (String OsPath.sep (OsPath.join_sep l)))
  = filter OsPath.nonempty l.
Proof.
  intros Hl. destruct l as [|x l]; [reflexivity|].
  change (OsPath.split (String OsPath.sep ?r)) with ("" :: OsPath.split r).
  now rewrite split_join_sep by (discriminate || assumption).
Qed.

(** [normpath] on a rooted path whose components are names or [.]. *)
Lemma normpath_rooted l :
  l <> [] ->
  Forall (fun s => has_sep s = false /\ s <> "" /\ s <> "..") l ->
  OsPath.normpath (String OsPath.sep (OsPath.join_sep l))
  = String OsPath.sep (OsPath.join_sep (filter real_comp l)).
Proof.
  intros Hne Hl. unfold OsPath.normpath.
  change (String.eqb (String OsPath.sep ?r) "") with false. cbv iota.
  change (OsPath.isabs (String OsPath.sep ?r)) with true. cbv iota.
  assert (H2 : PyStr.startswith "//" (String OsPath.sep (OsPath.join_sep l))
               = false).
  { destruct l as [|x l]; [contradiction|].
    inversion Hl as [|? ? (Hsep & Hx & _) _]; subst.
    destruct x as [|c x]; [contradiction|].
    simpl in Hsep. apply orb_false_iff in Hsep as [Hc _].
    assert (E : exists r, OsPath.join_sep (String c x :: l) = String c r).
    { destruct l; eexists; reflexivity. }
    destruct E as (r & ->). cbn [PyStr.startswith].
    rewrite Ascii.eqb_sym in Hc. unfold OsPath.sep in Hc. rewrite Hc.
    now rewrite andb_false_r. }
  rewrite H2. cbn [andb].
  change (OsPath.split (String OsPath.sep ?r)) with ("" :: OsPath.split r).
  rewrite split_join_sep;
    [|exact Hne | eapply Forall_impl; [|exact Hl]; now intros s [H _]].
  rewrite norm_comps_filter.
  - cbn [rev app filter real_comp String.eqb orb negb PyStr.take].
    reflexivity.
  - constructor; [discriminate|].
    eapply Forall_impl; [|exact Hl]. now intros s (_ & _ & H).
Qed.

(** Joining the current directory and a path that begins with [.]. *)
Lemma join_cwd_dot cs rest :
  Forall (fun s => is_entry_name s = true) cs ->
  OsPath.join (String OsPath.sep (OsPath.join_sep cs))
              (OsPath.join_sep ("." :: rest))
  = String OsPath.sep (OsPath.join_sep (cs ++ "." :: rest)).
Proof.
  intros Hcs. unfold OsPath.join.
  assert (Habs : OsPath.isabs (OsPath.join_sep ("." :: rest)) = false)
    by (destruct rest; reflexivity).
  rewrite Habs. change (String.eqb (String OsPath.sep ?r) "") with false.
  cbn [orb]. destruct cs as [|c cs]; [reflexivity|].
  rewrite endswith_sep_join_sep by (discriminate || assumption).
  rewrite (join_sep_app (c :: cs) ("." :: rest)) by discriminate.
  reflexivity.
Qed.

Lemma abspath_dot_path cs rest :
  Forall (fun s => is_proper_name s = true) cs ->
  Forall (fun s => is_proper_name s = true) rest ->
  OsPath.abspath (String OsPath.sep (OsPath.join_sep cs))
                 (OsPath.join_sep ("." :: rest))
  = String OsPath.sep (OsPath.join_sep (cs ++ rest)).
Proof.
  intros Hcs Hrest. unfold OsPath.abspath.
  assert (Habs : OsPath.isabs (OsPath.join_sep ("." :: rest)) = false)
    by (destruct rest; reflexivity).
  rewrite Habs, (join_cwd_dot cs rest (proper_entries cs Hcs)).
  rewrite normpath_rooted.
  - rewrite filter_app. cbn [filter]. unfold real_comp at 2.
    cbn [String.eqb Ascii.eqb Bool.eqb orb negb].
    now rewrite !filter_real_proper.
  - now destruct cs.
  - apply Forall_app; split; [|constructor; [now repeat split|]];
      (eapply Forall_impl; [|eassumption]); intros s Hs;
      apply proper_name_spec in Hs as (He & _ & Hdd);
      apply entry_name_spec in He as [Hne Hsep]; now repeat split.
Qed.

(** The path of a file yielded by the walk from [.], and what [relpath]
    makes of it in a current directory [/c1/.../cn]. *)
Lemma relpath_walked (cs ds : list string) (f : string) :
  Forall (fun s => is_proper_name s = true) cs ->
  Forall (fun s => is_proper_name s = true) ds ->
  is_proper_name f = true ->
  OsPath.relpath (String OsPath.sep (OsPath.join_sep cs)) (path_of "." ds f)
  = Ok (OsPath.join_sep (ds ++ [f]))
  /\ path_of "." ds f = "./" ++ OsPath.join_sep (ds ++ [f]).
Proof.
  intros Hcs Hds Hf.
  assert (Hall : Forall (fun s => is_proper_name s = true) (ds ++ [f]))
    by (apply Forall_app; split; [exact Hds | now constructor]).
  assert (Hpath : path_of "." ds f = OsPath.join_sep ("." :: ds ++ [f])).
  { rewrite path_of_join_sep;
      [|now apply proper_entries | now apply proper_name_spec in Hf].
    rewrite join_sep_cons by (now destruct ds). reflexivity. }
  split; [|rewrite Hpath, join_sep_cons by (now destruct ds); reflexivity].
  unfold OsPath.relpath.
  assert (Hne : String.eqb (path_of "." ds f) "" = false).
  { rewrite Hpath, join_sep_cons by (now destruct ds). reflexivity. }
  assert (Hstart : OsPath.abspath (String OsPath.sep (OsPath.join_sep cs))
                                  "."
                   = String OsPath.sep (OsPath.join_sep cs)).
  { generalize (abspath_dot_path cs [] Hcs (Forall_nil _)).
    rewrite app_nil_r. exact (fun H => H). }
  rewrite Hne, Hstart, Hpath.
  rewrite (abspath_dot_path cs (ds ++ [f]) Hcs Hall).
  rewrite !split_rooted
    by (apply entries_no_sep, proper_entries;
        try apply Forall_app; auto).
  rewrite !filter_nonempty_entries
    by (apply proper_entries; try apply Forall_app; auto).
  rewrite common_prefix_len_app, Nat.sub_diag. cbn [repeat app].
  rewrite skipn_app, Nat.sub_diag, skipn_all. cbn [skipn app].
  destruct (ds ++ [f])%list as [|first rest] eqn:E; [now destruct ds|].
  inversion Hall as [|? ? Hfirst Hrest]; subst.
  apply proper_name_spec in Hfirst as (He & _ & _).
  assert (He' := entry_name_spec first He). destruct He' as [Hfne Hfsep].
  rewrite (fold_left_join rest (proper_entries rest Hrest) first Hfne
             (endswith_sep_entry first Hfsep)).
  destruct rest; reflexivity.
Qed.

Lemma split_no_sep s : Forall (fun c => has_sep c = false) (OsPath.split s).
Proof.
  induction s as [|a s IH]; cbn [OsPath.split].
  - now repeat constructor.
  - destruct (Ascii.eqb a OsPath.sep) eqn:E; [now constructor|].
    destruct (OsPath.split s) as [|h t].
    + constructor; [|constructor]. simpl. now rewrite E.
    + inversion IH as [|? ? Hh Ht]; subst.
      constructor; [|exact Ht]. simpl. now rewrite E, Hh.
Qed.

Lemma isabs_app a b : a <> "" -> OsPath.isabs (a ++ b) = OsPath.isabs a.
Proof. destruct a; [contradiction | reflexivity]. Qed.

(** Whatever the path and the current directory, what [relpath] returns is
    not an absolute path. *)
Lemma relpath_relative cwd p rel :
  OsPath.relpath cwd p = Ok rel -> OsPath.isabs rel = false.
Proof.
  unfold OsPath.relpath. destruct (String.eqb p ""); [discriminate|].
  set (start_list := filter OsPath.nonempty
                            (OsPath.split (OsPath.abspath cwd "."))).
  set (path_list := filter OsPath.nonempty
                           (OsPath.split (OsPath.abspath cwd p))).
  set (i := OsPath.common_prefix_len start_list path_list).
  assert (Hall : Forall (fun s => is_entry_name s = true)
                        (repeat ".." (List.length start_list - i)
                         ++ skipn i path_list)%list).
  { apply Forall_app; split; apply Forall_forall; intros x Hx.
    - apply repeat_spec in Hx. now subst x.
    - assert (Hin : In x path_list).
      { rewrite <- (firstn_skipn i path_list). apply in_or_app. now right. }
      apply filter_In in Hin as [Hin Hne].
      unfold is_entry_name. unfold OsPath.nonempty in Hne. rewrite Hne.
      now rewrite (proj1 (Forall_forall _ _) (split_no_sep _) x Hin). }
  destruct (repeat ".." (List.length start_list - i) ++ skipn i path_list)%list
    as [|first rest].
  - intros H; injection H as <-. reflexivity.
  - inversion Hall as [|? ? Hfirst Hrest]; subst.
    apply entry_name_spec in Hfirst as [Hne Hsep].
    rewrite (fold_left_join rest Hrest first Hne
               (endswith_sep_entry first Hsep)).
    intros H; injection H as <-.
    destruct rest; [|rewrite (isabs_app _ _ Hne)]; now apply entry_not_abs.
Qed.

End RelativePaths.

(** ** The walk *)

Section Walk.

(** Induction on a tree, with the hypothesis on every sub-directory. *)
Lemma tree_induction (P : tree -> Prop) :
  P Opaque ->
  (forall dirs files,
      Forall (fun d => P (snd d)) dirs -> P (Dir dirs files)) ->
  forall t, P t.
Proof.
  intros HOpaque HDir. fix IH 1. intros [dirs files|].
  - apply HDir. induction dirs as [|d dirs IHdirs]; constructor.
    + apply IH.
    + exact IHdirs.
  - exact HOpaque.
Qed.

Lemma flat_map_flat_map {A B C} (f : B -> list C) (g : A -> list B) l :
  flat_map f (flat_map g l) = flat_map (fun x => flat_map f (g x)) l.
Proof.
  induction l as [|x l IH]; simpl; [reflexivity|].
  now rewrite flat_map_app, IH.
Qed.

(** [find_files] on a directory: its own files, then each sub-directory
    that is kept, in listing order. *)
Lemma find_files_dir directory dirs files :
  find_files directory (Dir dirs files)
  = (map (OsPath.join directory) (filter kept_file files)
     ++ flat_map (fun d =>
                    if kept_dir (fst d)
                    then find_files (OsPath.join directory (fst d)) (snd d)
                    else [])
                 dirs)%list.
Proof.
  unfold find_files. cbn [os_walk flat_map]. f_equal.
  rewrite flat_map_flat_map. apply flat_map_ext.
  intros d. now destruct (kept_dir (fst d)).
Qed.

(** What [find_files] yields: the files with a suffix that is kept, below
    chains of directories that are all kept. *)
Lemma find_files_iff t :
  forall directory p,
    In p (find_files directory t) <->
    exists ds f, file_at t ds f /\ all_kept ds /\ kept_file f = true
                 /\ p = path_of directory ds f.
Proof.
  induction t as [|dirs files IH] using tree_induction; intros directory p.
  - split; [intros [] | intros (ds & f & H & _); inversion H].
  - rewrite find_files_dir, in_app_iff, in_map_iff, in_flat_map. split.
    + intros [(f & <- & Hf) | (d & Hd & Hp)].
      * apply filter_In in Hf as [Hf Hk].
        exists [], f. repeat split; [now constructor | constructor | exact Hk].
      * destruct (kept_dir (fst d)) eqn:Hk; [|destruct Hp].
        apply (proj1 (Forall_forall _ _) IH d Hd) in Hp
          as (ds & f & Hat & Hds & Hf & ->).
        exists (fst d :: ds), f. repeat split.
        -- apply file_below with (sub := snd d); [|exact Hat].
           now destruct d.
        -- now constructor.
        -- exact Hf.
    + intros (ds & f & Hat & Hds & Hf & ->).
      inversion Hat as [dirs' files' f' Hin | dirs' files' d sub ds' f' Hin Hsub];
        subst.
      * left. exists f. split; [reflexivity|].
        apply filter_In; now split.
      * right. exists (d, sub). split; [exact Hin|].
        inversion Hds as [|? ? Hd Hds']; subst. cbn [fst snd]. rewrite Hd.
        apply (proj1 (Forall_forall _ _) IH (d, sub) Hin).
        exists ds', f. now repeat split.
Qed.

(** The names on the way to a file of a well-named tree. *)
Lemma file_at_names t ds f :
  well_named t = true -> file_at t ds f ->
  Forall (fun d => is_entry_name d = true) ds /\ is_entry_name f = true.
Proof.
  intros Hwn Hat; induction Hat as [dirs files f Hin | dirs files d sub ds f Hin Hat IH];
    simpl in Hwn; apply andb_true_iff in Hwn as [Hfiles Hdirs].
  - split; [constructor|].
    exact (proj1 (forallb_forall _ _) Hfiles f Hin).
  - assert (Hd := proj1 (forallb_forall _ _) Hdirs (d, sub) Hin).
    cbn [fst snd] in Hd. apply andb_true_iff in Hd as [Hd Hsub].
    destruct (IH Hsub) as [Hds Hf]. split; [now constructor | exact Hf].
Qed.

(** In a well-named tree a file is yielded exactly when its suffix and
    every directory above it are kept. *)
Lemma find_files_file_at t directory ds f :
  well_named t = true -> file_at t ds f ->
  In (path_of directory ds f) (find_files directory t)
  <-> all_kept ds /\ kept_file f = true.
Proof.
  intros Hwn Hat. rewrite find_files_iff. split.
  - intros (ds' & f' & Hat' & Hds' & Hf' & Heq).
    destruct (file_at_names _ _ _ Hwn Hat) as [Hn Hnf].
    destruct (file_at_names _ _ _ Hwn Hat') as [Hn' Hnf'].
    destruct (path_of_inj _ _ _ _ _ Hn Hnf Hn' Hnf' Heq) as [-> ->].
    now split.
  - intros [Hds Hf]. now exists ds, f.
Qed.


End Walk.

(** ** Claims on [find_files] *)

Section FindFilesClaims.

Lemma mem_In x xs : PyStr.mem x xs = true <-> In x xs.
Proof.
  unfold PyStr.mem. rewrite existsb_exists. split.
  - intros (y & Hy & E). apply String.eqb_eq in E. now subst.
  - intros H. exists x. split; [exact H | apply String.eqb_refl].
Qed.

Lemma kept_dir_spec d : kept_dir d = true <-> ~ In d EXCLUDE_PATTERNS.
Proof.
  unfold kept_dir. rewrite negb_true_iff, <- mem_In.
  now destruct (PyStr.mem d EXCLUDE_PATTERNS).
Qed.

Lemma all_kept_spec ds :
  all_kept ds <-> Forall (fun d => ~ In d EXCLUDE_PATTERNS) ds.
Proof.
  unfold all_kept. rewrite !Forall_forall.
  split; intros H d Hd; apply kept_dir_spec; now apply H.
Qed.

Lemma kept_file_spec f :
  kept_file f = true
  <-> ~ In (PyStr.lower (suffix f)) BINARY_EXTENSIONS.
Proof.
  unfold kept_file. rewrite negb_true_iff, <- mem_In.
  now destruct (PyStr.mem _ BINARY_EXTENSIONS).
Qed.

(** C4, as amended: the extension is [Path(file).suffix], the part of the
    name from its last ['.'] on when that dot is neither the first nor the
    last character of the name, and empty otherwise.  In a well-named tree
    a file whose suffix, lower-cased, is in [BINARY_EXTENSIONS] is never
    yielded, whatever the rest of its name; a file with an empty suffix (no
    dot in its name, or only a leading one) is yielded exactly when no
    directory above it is excluded. *)
Theorem find_files_skips_binary_suffix (t : tree) (directory : string)
  (Hwn : well_named t = true) :
  (forall ds f,
      file_at t ds f ->
      In (PyStr.lower (suffix f)) BINARY_EXTENSIONS ->
      ~ In (path_of directory ds f) (find_files directory t))
  /\ (forall p,
         In p (find_files directory t) ->
         exists ds f, file_at t ds f /\ p = path_of directory ds f
                      /\ ~ In (PyStr.lower (suffix f)) BINARY_EXTENSIONS)
  /\ (forall ds f,
         file_at t ds f -> suffix f = "" ->
         (In (path_of directory ds f) (find_files directory t)
          <-> Forall (fun d => ~ In d EXCLUDE_PATTERNS) ds))
  /\ (forall f, PyStr.rfind_dot f = None -> suffix f = "")
  /\ (forall f, PyStr.rfind_dot f = Some 0 -> suffix f = "")
  /\ (forall f i,
         PyStr.rfind_dot f = Some i -> 0 < i < String.length f - 1 ->
         suffix f = ext_after_last_dot f).
Proof.
  split; [|split; [|split; [|split; [|split]]]].
  - intros ds f Hat Hbin Hin.
    apply (find_files_file_at t directory ds f Hwn Hat) in Hin as [_ Hk].
    now apply kept_file_spec in Hk.
  - intros p Hin. apply find_files_iff in Hin as (ds & f & Hat & _ & Hk & ->).
    exists ds, f. repeat split; [exact Hat|]. now apply kept_file_spec.
  - intros ds f Hat Hsuf.
    rewrite (find_files_file_at t directory ds f Hwn Hat), all_kept_spec.
    split; [tauto|]. intros H; split; [exact H|].
    unfold kept_file. now rewrite Hsuf.
  - intros f H. unfold suffix. now rewrite H.
  - intros f H. unfold suffix. now rewrite H.
  - intros f i H [H1 H2]. unfold suffix, ext_after_last_dot. rewrite H.
    apply Nat.ltb_lt in H1, H2. now rewrite H1, H2.
Qed.

Lemma find_files_skips_binary_suffix_witness :
  well_named (Dir [("a", Dir [] ["x.txt"; "y.PNG"])] ["top.log"]) = true
  /\ ~ In (path_of "." ["a"] "y.PNG")
          (find_files "." (Dir [("a", Dir [] ["x.txt"; "y.PNG"])]
                               ["top.log"])).
Proof.
  split; [reflexivity|].
  refine (proj1 (find_files_skips_binary_suffix
                   (Dir [("a", Dir [] ["x.txt"; "y.PNG"])] ["top.log"]) "."
                   eq_refl) ["a"] "y.PNG" _ _).
  - apply file_below with (sub := Dir [] ["x.txt"; "y.PNG"]).
    + now left.
    + apply file_here. right; now left.
  - apply mem_In. reflexivity.
Defined.

(** C4, as stated, fails: for the file named [.bak] what follows the last
    dot of the name, the dot included, is [.bak], which is in the set, and
    the walk yields the file. *)
Lemma find_files_yields_dot_bak :
  PyStr.mem (PyStr.lower (ext_after_last_dot ".bak")) BINARY_EXTENSIONS
  = true
  /\ find_files "." (Dir [] [".bak"]) = ["./.bak"].
Proof. split; reflexivity. Qed.



End FindFilesClaims.

(** ** [search_file] and [main] *)

Section Coordinator.

Variable env : os_env.
Variable query : string.

Lemma relpath_nonempty cwd p :
  p <> "" -> exists rel, OsPath.relpath cwd p = Ok rel.
Proof.
  intros Hp. unfold OsPath.relpath.
  destruct (String.eqb_spec p "") as [E|_]; [contradiction|].
  match goal with |- context [match ?l with [] => _ | _ :: _ => _ end] =>
    destruct l end; eexists; reflexivity.
Qed.

Lemma open_read_nonempty p content :
  open_read env p = Ok content -> p <> "".
Proof. unfold open_read. intros H ->. discriminate H. Qed.

(** A failed read: nothing returned, one line printed. *)
Lemma search_file_read_error p e :
  open_read env p = Raise e ->
  search_file env p query = (None, [error_line p e]).
Proof. intros H. unfold search_file. now rewrite H. Qed.

(** A successful read without a match: nothing returned, nothing printed. *)
Lemma search_file_no_match p content :
  open_read env p = Ok content ->
  find_matches content query = Ok [] ->
  search_file env p query = (None, []).
Proof. intros H1 H2. unfold search_file. now rewrite H1, H2. Qed.

(** A successful read with matches: the dictionary, nothing printed. *)
Lemma search_file_found p content i l :
  open_read env p = Ok content ->
  find_matches content query = Ok (i :: l) ->
  exists rel,
    OsPath.relpath (getcwd env) p = Ok rel
    /\ search_file env p query
       = (Some {| path := rel;
                  snippets :=
                    map (fun index =>
                           format_snippet content (Z.of_nat index)
                                          context_default)
                        (i :: l) |},
          []).
Proof.
  intros H1 H2.
  destruct (relpath_nonempty (getcwd env) p (open_read_nonempty _ _ H1))
    as (rel & Hrel).
  exists rel. split; [exact Hrel|].
  unfold search_file. now rewrite H1, H2, Hrel.
Qed.

(** The loop of [main], file by file. *)
Lemma run_loop_spec files :
  forall st,
    stdout (run_loop env query st files)
    = (stdout st ++ flat_map (file_output env query) files)%list
    /\ results_found (run_loop env query st files)
       = results_found st || existsb (file_matches env query) files.
Proof.
  induction files as [|file files IH]; intros st.
  - simpl. now rewrite app_nil_r, orb_false_r.
  - cbn [run_loop fold_left]. fold (run_loop env query).
    destruct (IH (loop_body env query st file)) as [IH1 IH2].
    unfold run_loop in IH1, IH2 |- *. rewrite IH1, IH2.
    unfold loop_body, file_output, file_matches. cbn [flat_map existsb].
    destruct (search_file env file query) as [[r|] printed];
      cbn [fst results_found stdout].
    + rewrite <- !app_assoc. split; [reflexivity|].
      now rewrite orb_true_r.
    + rewrite app_nil_r, <- !app_assoc. split; reflexivity.
Qed.

(** What [main] prints when it is given a query. *)
Lemma main_output t prog :
  main env t [prog; query]
  = (header query
     :: flat_map (file_output env query) (find_files "." t)
     ++ (if existsb (file_matches env query) (find_files "." t)
         then [] else [no_matches_line]))%list.
Proof.
  unfold main.
  destruct (run_loop_spec (find_files "." t)
              {| results_found := false;
                 stdout := [nl ++ "Searching for: " ++ query ++ nl] |})
    as [H1 H2].
  rewrite H1, H2. cbn [results_found stdout orb app].
  destruct (existsb _ _); [now rewrite app_nil_r | reflexivity].
Qed.

(** No line a file adds is the final notice. *)
Lemma file_output_not_notice file line :
  In line (file_output env query file) -> line <> no_matches_line.
Proof.
  unfold file_output, search_file.
  destruct (open_read env file) as [content|e].
  - destruct (find_matches content query) as [[|i l]|e].
    + intros [].
    + destruct (OsPath.relpath (getcwd env) file) as [rel|e].
      * cbn [app]. unfold report. cbn [path snippets].
        intros [<- | Hin]; [discriminate|].
        apply in_app_iff in Hin as [Hin | [<- | []]]; [|discriminate].
        apply in_map_iff in Hin as (snippet & <- & _). discriminate.
      * intros [<- | []]. discriminate.
    + intros [<- | []]. discriminate.
  - intros [<- | []]. discriminate.
Qed.

End Coordinator.

(** ** Claims on [search_file] and [main] *)

Section CoordinatorClaims.

Variable env : os_env.
Variable query : string.

Lemma file_matches_false files :
  existsb (file_matches env query) files = false
  <-> forall file, In file files -> fst (search_file env file query) = None.
Proof.
  unfold file_matches. induction files as [|x files IH]; simpl.
  - split; [intros _ ? [] | reflexivity].
  - rewrite orb_false_iff, IH. split.
    + intros [Hx H] file [<- | Hin]; [|now apply H].
      now destruct (fst (search_file env x query)).
    + intros H. split; [|intros file Hin; apply H; now right].
      now rewrite (H x (or_introl eq_refl)).
Qed.

Lemma notice_not_in_outputs files :
  ~ In no_matches_line (flat_map (file_output env query) files).
Proof.
  intros Hin. apply in_flat_map in Hin as (file & _ & Hin).
  now apply (file_output_not_notice env query file _ Hin).
Qed.

(** C7: a file whose read fails gives no match and exactly one printed
    line, which names the path and the error; the run goes on with the
    next file.  What [main] prints is the header, then what each file of
    the walk adds, in order, each from that file alone, then the final
    notice when no file matched: with a failing file anywhere in the walk
    the lines of the files before it and after it are those they add by
    themselves, so the failure neither ends the run nor changes what any
    other file gives. *)
Theorem read_failure_is_local (t : tree) (prog : string) :
  (forall p e,
      open_read env p = Raise e ->
      search_file env p query = (None, [error_line p e])
      /\ error_line p e = "Error processing " ++ p ++ ": " ++ e
      /\ file_output env query p = [error_line p e]
      /\ file_matches env query p = false)
  /\ (forall before bad after e,
         find_files "." t = (before ++ bad :: after)%list ->
         open_read env bad = Raise e ->
         main env t [prog; query]
         = (header query
            :: flat_map (file_output env query) before
            ++ [error_line bad e]
            ++ flat_map (file_output env query) after
            ++ (if existsb (file_matches env query) (before ++ after)
                then [] else [no_matches_line]))%list)
  /\ (forall file line,
         In file (find_files "." t) ->
         In line (file_output env query file) ->
         In line (main env t [prog; query])).
Proof.
  assert (Herr : forall p e,
             open_read env p = Raise e ->
             search_file env p query = (None, [error_line p e])
             /\ error_line p e = "Error processing " ++ p ++ ": " ++ e
             /\ file_output env query p = [error_line p e]
             /\ file_matches env query p = false).
  { intros p e H. assert (Hs := search_file_read_error env query p e H).
    unfold file_output, file_matches. rewrite Hs. now repeat split. }
  split; [exact Herr|]. split.
  - intros before bad after e Hfiles Hbad.
    destruct (Herr bad e Hbad) as (_ & _ & Hout & Hm).
    rewrite main_output, Hfiles, flat_map_app. cbn [flat_map].
    rewrite Hout, !existsb_app. cbn [existsb]. rewrite Hm. cbn [orb].
    now rewrite <- !app_assoc.
  - intros file line Hfile Hline. rewrite main_output. right.
    apply in_app_iff. left. apply in_flat_map. now exists file.
Qed.

(** C8: [search_file] returns a dictionary exactly when the file was read
    and the list of offsets is not empty; its path is
    [os.path.relpath(path)], the path relative to the directory the program
    was started in: it is never an absolute path, and for a file the walk
    from [.] yields, [./d1/.../dk/f] in a current directory [/c1/.../cn],
    it is [d1/.../dk/f].  Its snippets are the snippets of the offsets, one
    per offset, in the order of the offsets, which is strictly ascending; so
    it holds at least one snippet.  Nothing is printed then. *)
Theorem search_file_match (p : string) :
  ((exists fm, fst (search_file env p query) = Some fm)
   <-> exists content l,
         open_read env p = Ok content
         /\ find_matches content query = Ok l /\ l <> [])
  /\ (forall fm,
         fst (search_file env p query) = Some fm ->
         exists content l,
           open_read env p = Ok content
           /\ find_matches content query = Ok l
           /\ StronglySorted lt l
           /\ OsPath.relpath (getcwd env) p = Ok (path fm)
           /\ snippets fm
              = map (fun index =>
                       format_snippet content (Z.of_nat index)
                                      context_default) l
           /\ List.length (snippets fm) = List.length l
           /\ 1 <= List.length (snippets fm)
           /\ snd (search_file env p query) = [])
  /\ (forall fm,
         fst (search_file env p query) = Some fm ->
         OsPath.isabs (path fm) = false)
  /\ (forall cs ds f fm,
         Forall (fun s => is_proper_name s = true) cs ->
         Forall (fun s => is_proper_name s = true) ds ->
         is_proper_name f = true ->
         getcwd env = String OsPath.sep (OsPath.join_sep cs) ->
         p = path_of "." ds f ->
         fst (search_file env p query) = Some fm ->
         path fm = OsPath.join_sep (ds ++ [f])
         /\ p = "./" ++ path fm).
Proof.
  assert (Hfwd : forall fm,
             fst (search_file env p query) = Some fm ->
             exists content l,
               open_read env p = Ok content
               /\ find_matches content query = Ok l
               /\ l <> []
               /\ StronglySorted lt l
               /\ OsPath.relpath (getcwd env) p = Ok (path fm)
               /\ snippets fm
                  = map (fun index =>
                           format_snippet content (Z.of_nat index)
                                          context_default) l
               /\ snd (search_file env p query) = []).
  { intros fm Hfm.
    destruct (open_read env p) as [content|e] eqn:Hread;
      [|rewrite (search_file_read_error env query p e Hread) in Hfm;
        discriminate].
    destruct (find_matches_total content query) as (l & Hl & _ & Hsorted).
    destruct l as [|i l];
      [rewrite (search_file_no_match env query p content Hread Hl) in Hfm;
       discriminate|].
    destruct (search_file_found env query p content i l Hread Hl)
      as (rel & Hrel & Hs).
    rewrite Hs in Hfm |- *. injection Hfm as <-.
    exists content, (i :: l). now repeat split. }
  split; [split|split; [|split]].
  - intros (fm & Hfm).
    destruct (Hfwd fm Hfm) as (content & l & H1 & H2 & H3 & _).
    now exists content, l.
  - intros (content & [|i l] & Hread & Hl & Hne); [contradiction|].
    destruct (search_file_found env query p content i l Hread Hl)
      as (rel & _ & Hs).
    rewrite Hs. eexists; reflexivity.
  - intros fm Hfm.
    destruct (Hfwd fm Hfm)
      as (content & l & H1 & H2 & H3 & H4 & H5 & H6 & H7).
    exists content, l. repeat split; try assumption.
    + now rewrite H6, length_map.
    + rewrite H6, length_map. destruct l; [contradiction | simpl; lia].
  - intros fm Hfm.
    destruct (Hfwd fm Hfm) as (content & l & _ & _ & _ & _ & Hrel & _).
    exact (relpath_relative _ _ _ Hrel).
  - intros cs ds f fm Hcs Hds Hf Hcwd Hp Hfm.
    destruct (Hfwd fm Hfm) as (content & l & _ & _ & _ & _ & Hrel & _).
    destruct (relpath_walked cs ds f Hcs Hds Hf) as [Hwalked Hpath].
    rewrite Hcwd, Hp, Hwalked in Hrel. injection Hrel as <-.
    split; [reflexivity|]. now rewrite Hp.
Qed.

(** C9: given a query, [main] prints ["No matches found."] exactly when no
    file of the walk gave a result; it then prints it once, as its last
    line, and it does not print it when a file gave one. *)
Theorem no_matches_notice (t : tree) (prog : string) :
  (In no_matches_line (main env t [prog; query])
   <-> forall file,
         In file (find_files "." t) ->
         fst (search_file env file query) = None)
  /\ count_occ string_dec (main env t [prog; query]) no_matches_line
     = (if existsb (file_matches env query) (find_files "." t)
        then 0 else 1)
  /\ ((forall file,
          In file (find_files "." t) ->
          fst (search_file env file query) = None) ->
      main env t [prog; query]
      = (header query
         :: flat_map (file_output env query) (find_files "." t)
         ++ [no_matches_line])%list).
Proof.
  rewrite main_output, <- file_matches_false.
  assert (Hh : header query <> no_matches_line) by discriminate.
  assert (Hn := notice_not_in_outputs (find_files "." t)).
  destruct (existsb (file_matches env query) (find_files "." t)).
  - rewrite app_nil_r. split; [|split].
    + split; [|discriminate].
      intros [H | H]; [now elim Hh | now elim Hn].
    + rewrite count_occ_cons_neq by exact Hh.
      now apply count_occ_not_In.
    + discriminate.
  - split; [|split].
    + split; [reflexivity|]. intros _. right. apply in_app_iff.
      right. now left.
    + rewrite count_occ_cons_neq by exact Hh.
      rewrite count_occ_app, (proj1 (count_occ_not_In _ _ _) Hn).
      cbn [count_occ]. now destruct (string_dec _ _).
    + reflexivity.
Qed.

End CoordinatorClaims.

Lemma search_file_match_witness :
  exists fm,
    fst (search_file example_env "./a/x.txt" "hello") = Some fm
    /\ path fm = "a/x.txt".
Proof.
  destruct (search_file_match example_env "hello" "./a/x.txt")
    as (H1 & _ & _ & H4).
  destruct (proj2 H1
              (ex_intro _ "hello world"
                 (ex_intro _ [0]
                    (conj eq_refl
                       (conj eq_refl
                          (fun E : [0] = [] =>
                             eq_ind [0]
                               (fun l => match l with
                                         | [] => False
                                         | _ :: _ => True
                                         end) I [] E))))))
    as (fm & Hfm).
  exists fm. split; [exact Hfm|].
  assert (Hcs : Forall (fun s => is_proper_name s = true) ["home"; "u"])
    by (repeat constructor).
  assert (Hds : Forall (fun s => is_proper_name s = true) ["a"])
    by (repeat constructor).
  exact (proj1 (H4 ["home"; "u"] ["a"] "x.txt" fm Hcs Hds
                   eq_refl eq_refl eq_refl Hfm)).
Defined.

(** ** Further properties of [format_snippet] and [find_matches] *)

Section MatchesAndSnippets.

Lemma length_append (a b : string) :
  String.length (a ++ b) = String.length a + String.length b.
Proof. induction a as [|c a IH]; simpl; [reflexivity | now rewrite IH]. Qed.

Lemma take_app_l n (a b : string) :
  n <= String.length a -> PyStr.take n (a ++ b) = PyStr.take n a.
Proof.
  revert a; induction n as [|n IH]; intros a H; [reflexivity|].
  destruct a as [|c a]; simpl in H; [lia|].
  simpl. f_equal. apply IH. lia.
Qed.

Lemma drop_app_l n (a b : string) :
  n <= String.length a -> PyStr.drop n (a ++ b) = PyStr.drop n a ++ b.
Proof.
  revert a; induction n as [|n IH]; intros a H; [reflexivity|].
  destruct a as [|c a]; simpl in H; [lia|].
  simpl. apply IH. lia.
Qed.

Lemma drop_drop a b s : PyStr.drop a (PyStr.drop b s) = PyStr.drop (b + a) s.
Proof.
  revert s; induction b as [|b IH]; intros s; [reflexivity|].
  destruct s as [|c s]; simpl; [apply drop_nil | apply IH].
Qed.

Lemma drop_take k m s :
  PyStr.drop k (PyStr.take m s) = PyStr.take (m - k) (PyStr.drop k s).
Proof.
  revert m s; induction k as [|k IH]; intros m s.
  - now rewrite Nat.sub_0_r.
  - destruct m as [|m]; [now rewrite take_0|].
    destruct s as [|c s]; simpl; [now rewrite take_nil | apply IH].
Qed.

Lemma take_take n m s : n <= m -> PyStr.take n (PyStr.take m s) = PyStr.take n s.
Proof.
  revert m s; induction n as [|n IH]; intros m s H; [reflexivity|].
  destruct m as [|m]; [lia|]. destruct s as [|c s]; [reflexivity|].
  simpl. f_equal. apply IH. lia.
Qed.

(** The length of a slice between two indices that are not negative. *)
Lemma length_slice_nonneg s start stop :
  (0 <= start)%Z -> (0 <= stop)%Z ->
  String.length (PyStr.slice s start stop)
  = Nat.min (Z.to_nat stop) (String.length s) - Z.to_nat start.
Proof.
  intros Hs He. rewrite slice_nonneg, substring_take_drop by assumption.
  rewrite length_take, length_drop. lia.
Qed.

(** X1: with a context that is not negative and an offset not below
    [-context] (every match offset is such), the snippet is at most
    [2 * context + 6] characters long, and at most six characters longer
    than the content. *)
Theorem format_snippet_length (content : string) (offset context : Z)
  (Hctx : (0 <= context)%Z) (Hoff : (0 <= offset + context)%Z) :
  (Z.of_nat (String.length (format_snippet content offset context))
   <= 2 * context + 6)%Z
  /\ String.length (format_snippet content offset context)
     <= String.length content + 6.
Proof.
  unfold format_snippet. rewrite !length_append, length_slice_nonneg by lia.
  simpl String.length. split; lia.
Qed.

Lemma format_snippet_length_witness :
  (0 <= 2)%Z /\ (0 <= 3 + 2)%Z
  /\ (Z.of_nat (String.length (format_snippet "abcdefghij" 3 2))
      <= 2 * 2 + 6)%Z.
Proof.
  split; [lia|]. split; [lia|].
  exact (proj1 (format_snippet_length "abcdefghij" 3 2 ltac:(lia) ltac:(lia))).
Defined.

(** X2: the snippet of a match shows the match.  When the query occurs at
    offset [i] and is not longer than the context, the query stands in the
    snippet, after the leading marker, at [i - start] where
    [start = max(0, i - context)]. *)
Theorem format_snippet_shows_match (content query : string) (i : nat)
  (context : Z)
  (Hocc : occurs_at query content i)
  (Hlen : (Z.of_nat (String.length query) <= context)%Z) :
  String.substring (3 + (i - Z.to_nat (Z.max 0 (Z.of_nat i - context))))
                   (String.length query)
                   (format_snippet content (Z.of_nat i) context)
  = query.
Proof.
  destruct Hocc as [Hb Hq].
  assert (Hctx : (0 <= context)%Z) by lia.
  set (start := Z.max 0 (Z.of_nat i - context)).
  set (stop := Z.min (Z.of_nat (String.length content)) (Z.of_nat i + context)).
  unfold format_snippet. fold start; fold stop.
  assert (Hs : (0 <= start)%Z) by (subst start; lia).
  assert (He : (0 <= stop)%Z) by (subst stop; lia).
  rewrite (slice_nonneg content start stop Hs He).
  change (String.substring (3 + ?k) ?n ("..." ++ ?x))
    with (String.substring k n x).
  rewrite !substring_take_drop in *.
  set (m := Z.to_nat stop - Z.to_nat start).
  set (k := i - Z.to_nat start).
  assert (Hk : k + String.length query <= m) by (subst k m start stop; lia).
  assert (Hm : m <= String.length content - Z.to_nat start)
    by (subst m start stop; lia).
  assert (Hinner : String.length
                     (PyStr.take m (PyStr.drop (Z.to_nat start) content)) = m)
    by (rewrite length_take, length_drop; lia).
  rewrite drop_app_l by lia.
  rewrite take_app_l by (rewrite length_drop, Hinner; lia).
  rewrite drop_take, take_take by lia.
  rewrite drop_drop.
  replace (Z.to_nat start + k) with i by (subst k start; lia).
  exact Hq.
Qed.

Lemma format_snippet_shows_match_witness :
  occurs_at "needle" "hay needle hay" 4
  /\ (Z.of_nat (String.length "needle") <= 6)%Z
  /\ String.substring (3 + (4 - Z.to_nat (Z.max 0 (Z.of_nat 4 - 6))))
                      (String.length "needle")
                      (format_snippet "hay needle hay" (Z.of_nat 4) 6)
     = "needle".
Proof.
  assert (H : occurs_at "needle" "hay needle hay" 4)
    by (split; [simpl; lia | reflexivity]).
  split; [exact H|]. split; [simpl; lia|].
  exact (format_snippet_shows_match "hay needle hay" "needle" 4 6 H
           ltac:(simpl; lia)).
Defined.

Lemma nonoverlapping_count q content pos l :
  nonoverlapping q content pos l ->
  l <> [] -> pos + List.length l * String.length q <= String.length content.
Proof.
  induction 1 as [pos Hno | pos i rest Hle Hocc Hmin Hrest IH]; intros Hne;
    [contradiction|].
  destruct Hocc as [Hb _]. destruct rest as [|j rest].
  - simpl. lia.
  - assert (H := IH ltac:(discriminate)). simpl in *. lia.
Qed.

(** X3: the matches of a non-empty query do not overlap, so there are at
    most [len(content) / len(query)] of them; a query longer than the
    content has none. *)
Theorem find_matches_count (content query : string) (l : list nat)
  (Hq : query <> "") (Hl : find_matches content query = Ok l) :
  List.length l * String.length query <= String.length content
  /\ (String.length content < String.length query -> l = []).
Proof.
  destruct (find_matches_nonempty content query Hq) as (l' & Hl' & Hno).
  rewrite Hl in Hl'. injection Hl' as <-.
  assert (Hlen : 0 < String.length query)
    by (destruct query; [contradiction | simpl; lia]).
  destruct l as [|i l]; [split; [simpl; lia | reflexivity]|].
  assert (H := nonoverlapping_count _ _ _ _ Hno ltac:(discriminate)).
  split; [lia|]. intros Hshort. simpl in H. lia.
Qed.

Lemma find_matches_count_witness :
  "aa" <> "" /\ find_matches "aaaaa" "aa" = Ok [0; 2]
  /\ List.length [0; 2] * String.length "aa" <= String.length "aaaaa".
Proof.
  split; [discriminate|]. split; [reflexivity|].
  exact (proj1 (find_matches_count "aaaaa" "aa" [0; 2]
                  ltac:(discriminate) eq_refl)).
Defined.

End MatchesAndSnippets.

(** ** Further properties of [search_file] and [main] *)

Section Reporting.

(** X4: for a non-empty query a file is reported exactly when it can be read
    and the query occurs in its text. *)
Theorem search_file_reports_containing (env : os_env) (p query : string)
  (Hq : query <> "") :
  (exists fm, fst (search_file env p query) = Some fm)
  <-> exists content,
        open_read env p = Ok content
        /\ exists i, occurs_at query content i.
Proof.
  split.
  - intros (fm & Hfm).
    destruct (open_read env p) as [content|e] eqn:Hread;
      [|rewrite (search_file_read_error env query p e Hread) in Hfm;
        discriminate].
    exists content. split; [reflexivity|].
    destruct (find_matches_nonempty content query Hq) as (l & Hl & Hno).
    destruct l as [|i l];
      [rewrite (search_file_no_match env query p content Hread Hl) in Hfm;
       discriminate|].
    exists i. now inversion Hno.
  - intros (content & Hread & i & Hocc).
    destruct (find_matches_nonempty content query Hq) as (l & Hl & Hno).
    destruct l as [|j l].
    + exfalso. inversion Hno as [pos Hnone|]; subst.
      exact (Hnone i (Nat.le_0_l i) Hocc).
    + destruct (search_file_found env query p content j l Hread Hl)
        as (rel & _ & Hs).
      rewrite Hs. eexists; reflexivity.
Qed.

Lemma search_file_reports_containing_witness :
  "hello" <> ""
  /\ ((exists fm, fst (search_file example_env "./a/x.txt" "hello") = Some fm)
      <-> exists content,
            open_read example_env "./a/x.txt" = Ok content
            /\ exists i, occurs_at "hello" content i).
Proof.
  split; [discriminate|].
  exact (search_file_reports_containing example_env "./a/x.txt" "hello"
           ltac:(discriminate)).
Defined.

(** X5: with the empty query every file that can be read is reported, with
    one snippet per position of its text, the end included. *)
Theorem search_file_empty_query (env : os_env) (p content : string)
  (Hread : open_read env p = Ok content) :
  exists fm,
    search_file env p "" = (Some fm, [])
    /\ List.length (snippets fm) = S (String.length content).
Proof.
  assert (Hl := find_matches_empty content). cbn [seq] in Hl.
  destruct (search_file_found env "" p content _ _ Hread Hl)
    as (rel & _ & Hs).
  eexists; split; [exact Hs|].
  cbn [snippets]. rewrite length_map. cbn [List.length].
  now rewrite length_seq.
Qed.

Lemma search_file_empty_query_witness :
  open_read example_env "./a/x.txt" = Ok "hello world"
  /\ exists fm,
       search_file example_env "./a/x.txt" "" = (Some fm, [])
       /\ List.length (snippets fm) = S (String.length "hello world").
Proof.
  split; [reflexivity|].
  exact (search_file_empty_query example_env "./a/x.txt" "hello world"
           eq_refl).
Defined.

(** X6: [search_file] prints only when the read fails: nothing is printed
    for a file that was read, whatever the query, and one line otherwise. *)
Theorem search_file_prints_on_read_error (env : os_env)
  (p query : string) :
  (snd (search_file env p query) = []
   <-> exists content, open_read env p = Ok content)
  /\ (forall e,
         open_read env p = Raise e ->
         snd (search_file env p query) = [error_line p e])
  /\ List.length (snd (search_file env p query)) <= 1.
Proof.
  destruct (open_read env p) as [content|e] eqn:Hread.
  - assert (Hnone : snd (search_file env p query) = []).
    { destruct (find_matches_total content query) as (l & Hl & _).
      destruct l as [|i l].
      - now rewrite (search_file_no_match env query p content Hread Hl).
      - destruct (search_file_found env query p content i l Hread Hl)
          as (rel & _ & Hs).
        now rewrite Hs. }
    rewrite Hnone. split; [|split].
    + split; [now exists content | reflexivity].
    + discriminate.
    + simpl; lia.
  - rewrite (search_file_read_error env query p e Hread).
    split; [|split].
    + split; [discriminate | intros (content & H); discriminate H].
    + intros e' H. now injection H as ->.
    + simpl; lia.
Qed.

End Reporting.

Section Runs.

Lemma flat_map_ext_In {A B} (f g : A -> list B) l :
  (forall x, In x l -> f x = g x) -> flat_map f l = flat_map g l.
Proof.
  induction l as [|x l IH]; intros H; [reflexivity|].
  simpl. rewrite (H x (or_introl eq_refl)), IH; [reflexivity|].
  intros y Hy. apply H. now right.
Qed.

Lemma existsb_ext_In {A} (f g : A -> bool) l :
  (forall x, In x l -> f x = g x) -> existsb f l = existsb g l.
Proof.
  induction l as [|x l IH]; intros H; [reflexivity|].
  simpl. rewrite (H x (or_introl eq_refl)), IH; [reflexivity|].
  intros y Hy. apply H. now right.
Qed.

(** X7: [main] searches only when it is given exactly one argument; with
    any other number of arguments it prints the two usage lines, whatever
    the directory holds, and with one argument it never prints them. *)
Theorem main_usage (env : os_env) (t : tree) (argv : list string) :
  main env t argv = usage_lines <-> List.length argv <> 2.
Proof.
  split.
  - intros Hmain Hlen.
    destruct argv as [|prog [|query [|x argv]]]; try discriminate Hlen.
    rewrite main_output in Hmain. discriminate Hmain.
  - intros Hlen.
    destruct argv as [|prog [|query [|x argv]]]; try reflexivity.
    now elim Hlen.
Qed.

(** X8: [main] looks at the file system only through the walk and the files
    the walk yields: two environments with the same current directory that
    agree on the text of every yielded path give the same output.  What a
    file that is not yielded holds (one below an excluded directory, one
    with a binary suffix) is never read. *)
Theorem main_reads_only_yielded_files (env1 env2 : os_env) (t : tree)
  (argv : list string)
  (Hcwd : getcwd env1 = getcwd env2)
  (Hread : forall p, In p (find_files "." t) ->
                     read_text env1 p = read_text env2 p) :
  main env1 t argv = main env2 t argv.
Proof.
  destruct argv as [|prog [|query [|x argv]]]; try reflexivity.
  assert (Hs : forall p, In p (find_files "." t) ->
                         search_file env1 p query = search_file env2 p query).
  { intros p Hp. unfold search_file, open_read.
    now rewrite (Hread p Hp), Hcwd. }
  rewrite !main_output.
  rewrite (flat_map_ext_In (file_output env1 query) (file_output env2 query)),
          (existsb_ext_In (file_matches env1 query) (file_matches env2 query));
    [reflexivity | |];
    intros p Hp; unfold file_matches, file_output; now rewrite (Hs p Hp).
Qed.

Lemma main_reads_only_yielded_files_witness :
  getcwd example_env = getcwd example_env_changed
  /\ (forall p, In p (find_files "." example_tree) ->
                read_text example_env p = read_text example_env_changed p)
  /\ main example_env example_tree ["worm.py"; "hello"]
     = main example_env_changed example_tree ["worm.py"; "hello"].
Proof.
  assert (H : forall p, In p (find_files "." example_tree) ->
                        read_text example_env p
                        = read_text example_env_changed p).
  { intros p Hp. change (find_files "." example_tree)
      with ["./a/x.txt"; "./b/z.txt"] in Hp.
    destruct Hp as [<- | [<- | []]]; reflexivity. }
  split; [reflexivity|]. split; [exact H|].
  exact (main_reads_only_yielded_files example_env example_env_changed
           example_tree ["worm.py"; "hello"] eq_refl H).
Defined.

End Runs.

(** ** Further properties of the file filter and the walk *)

Section Filter.

Ltac every_char c :=
  destruct c as [b0 b1 b2 b3 b4 b5 b6 b7];
  destruct b0, b1, b2, b3, b4, b5, b6, b7.

Lemma lower_char_idem c :
  PyStr.lower_char (PyStr.lower_char c) = PyStr.lower_char c.
Proof. every_char c; reflexivity. Qed.

Lemma lower_char_dot c :
  Ascii.eqb (PyStr.lower_char c) "." = Ascii.eqb c ".".
Proof. every_char c; reflexivity. Qed.

Lemma lower_idem s : PyStr.lower (PyStr.lower s) = PyStr.lower s.
Proof.
  induction s as [|c s IH]; simpl; [reflexivity|].
  now rewrite lower_char_idem, IH.
Qed.

Lemma length_lower s : String.length (PyStr.lower s) = String.length s.
Proof. induction s as [|c s IH]; simpl; [reflexivity | now rewrite IH]. Qed.

Lemma rfind_dot_lower s : PyStr.rfind_dot (PyStr.lower s) = PyStr.rfind_dot s.
Proof.
  induction s as [|c s IH]; simpl; [reflexivity|].
  now rewrite IH, lower_char_dot.
Qed.

Lemma drop_lower n s : PyStr.drop n (PyStr.lower s) = PyStr.lower (PyStr.drop n s).
Proof.
  revert s; induction n as [|n IH]; intros [|c s]; simpl; auto.
Qed.

Lemma suffix_lower s : suffix (PyStr.lower s) = PyStr.lower (suffix s).
Proof.
  unfold suffix. rewrite rfind_dot_lower, length_lower.
  destruct (PyStr.rfind_dot s) as [i|]; [|reflexivity].
  destruct ((0 <? i)%nat && (i <? String.length s - 1)%nat);
    [apply drop_lower | reflexivity].
Qed.

(** X9: the test on the extension does not look at the case of the name:
    two names that are equal once lower-cased are both kept or both
    skipped.  The test on directory names does look at it. *)
Theorem kept_file_ignores_case (f g : string)
  (Hfg : PyStr.lower f = PyStr.lower g) :
  kept_file f = kept_file g
  /\ kept_file (PyStr.lower f) = kept_file f
  /\ kept_dir "build" = false /\ kept_dir "Build" = true.
Proof.
  assert (H : forall x, kept_file x
                        = negb (PyStr.mem (suffix (PyStr.lower x))
                                          BINARY_EXTENSIONS)).
  { intros x. unfold kept_file. now rewrite suffix_lower. }
  split; [now rewrite (H f), (H g), Hfg|].
  split; [|split; reflexivity].
  now rewrite (H (PyStr.lower f)), lower_idem, <- (H f).
Qed.

Lemma kept_file_ignores_case_witness :
  PyStr.lower "Photo.JPG" = PyStr.lower "photo.jpg"
  /\ kept_file "Photo.JPG" = kept_file "photo.jpg".
Proof.
  split; [reflexivity|].
  exact (proj1 (kept_file_ignores_case "Photo.JPG" "photo.jpg" eq_refl)).
Defined.

Lemma rfind_dot_drop s i :
  PyStr.rfind_dot s = Some i ->
  exists r, PyStr.drop i s = String "." r /\ PyStr.rfind_dot r = None
            /\ String.length s = i + S (String.length r).
Proof.
  revert i; induction s as [|c s IH]; intros i H; [discriminate|].
  simpl in H. destruct (PyStr.rfind_dot s) as [j|] eqn:E.
  - injection H as <-. destruct (IH j eq_refl) as (r & H1 & H2 & H3).
    exists r. simpl. now rewrite H3.
  - destruct (Ascii.eqb_spec c ".") as [->|_]; [|discriminate].
    injection H as <-. exists s. now repeat split.
Qed.

Lemma rfind_dot_app a b i :
  PyStr.rfind_dot b = Some i ->
  PyStr.rfind_dot (a ++ b) = Some (String.length a + i).
Proof.
  intros H. induction a as [|c a IH]; simpl; [exact H | now rewrite IH].
Qed.

(** X10: a suffix is empty or a dot followed by at least one character, none
    of them a dot.  So the entry [.db.bak] of [BINARY_EXTENSIONS], with its
    two dots, is never the suffix of a name; a name that ends in [.db.bak]
    is skipped all the same, its suffix being [.bak]. *)
Theorem suffix_has_one_dot (f : string) :
  (suffix f = ""
   \/ exists r, suffix f = String "." r /\ r <> ""
                /\ PyStr.rfind_dot r = None)
  /\ PyStr.lower (suffix f) <> ".db.bak"
  /\ suffix (f ++ ".db.bak") = ".bak"
  /\ kept_file (f ++ ".db.bak") = false.
Proof.
  assert (Hshape : suffix f = ""
                   \/ exists r, suffix f = String "." r /\ r <> ""
                                /\ PyStr.rfind_dot r = None).
  { unfold suffix. destruct (PyStr.rfind_dot f) as [i|] eqn:E; [|now left].
    destruct ((0 <? i)%nat && (i <? String.length f - 1)%nat) eqn:B;
      [|now left].
    right. destruct (rfind_dot_drop f i E) as (r & H1 & H2 & H3).
    exists r. split; [exact H1|]. split; [|exact H2].
    apply andb_true_iff in B as [_ B]. apply Nat.ltb_lt in B.
    intros ->. simpl in H3. lia. }
  assert (Hsuf : suffix (f ++ ".db.bak") = ".bak").
  { unfold suffix.
    rewrite (rfind_dot_app f ".db.bak" 3 eq_refl), length_append.
    simpl String.length.
    replace ((0 <? String.length f + 3)%nat) with true
      by (symmetry; apply Nat.ltb_lt; lia).
    replace ((String.length f + 3 <? String.length f + 7 - 1)%nat) with true
      by (symmetry; apply Nat.ltb_lt; lia).
    cbn [andb]. rewrite <- drop_drop.
    rewrite drop_app_l by lia.
    now rewrite (drop_all (String.length f) f) by lia. }
  split; [exact Hshape|]. split; [|split; [exact Hsuf|]].
  - destruct Hshape as [-> | (r & -> & _ & Hr)]; [discriminate|].
    simpl. intros H. injection H as H.
    rewrite <- rfind_dot_lower, H in Hr. discriminate Hr.
  - unfold kept_file. now rewrite Hsuf.
Qed.

End Filter.

Section Escape.

(** X11: [sanitize_search_term] only adds backslashes: it leaves a query
    without special characters as it is, at most doubles the length of a
    query, and maps different queries to different patterns. *)
Theorem sanitize_search_term_faithful (q : string) :
  (plain q = true -> sanitize_search_term q = q)
  /\ String.length q <= String.length (sanitize_search_term q)
     <= 2 * String.length q
  /\ (forall q', sanitize_search_term q = sanitize_search_term q' -> q = q').
Proof.
  unfold sanitize_search_term. split; [|split].
  - induction q as [|c q IH]; simpl; [reflexivity|].
    intros H. apply andb_true_iff in H as [Hc Hq].
    apply negb_true_iff in Hc. now rewrite Hc, (IH Hq).
  - induction q as [|c q IH]; simpl; [lia|].
    destruct (Re.is_special c); simpl; lia.
  - induction q as [|c q IH]; intros [|d q'] H; simpl in H.
    + reflexivity.
    + destruct (Re.is_special d); discriminate H.
    + destruct (Re.is_special c); discriminate H.
    + destruct (Re.is_special c) eqn:Ec, (Re.is_special d) eqn:Ed.
      * injection H as -> H. now rewrite (IH q' H).
      * injection H as <- _. vm_compute in Ed. discriminate Ed.
      * injection H as -> _. vm_compute in Ec. discriminate Ec.
      * injection H as -> H. now rewrite (IH q' H).
Qed.

End Escape.

Section WalkExtras.

(** X12: in a well-named tree [find_files] yields a file exactly when no
    directory above it has an excluded name and its suffix, lower-cased, is
    not a binary extension: nothing else keeps a file out, and every such
    file is found, at any depth. *)
Theorem find_files_exactly (t : tree) (directory : string)
  (ds : list string) (f : string)
  (Hwn : well_named t = true) (Hat : file_at t ds f) :
  In (path_of directory ds f) (find_files directory t)
  <-> Forall (fun d => ~ In d EXCLUDE_PATTERNS) ds
      /\ ~ In (PyStr.lower (suffix f)) BINARY_EXTENSIONS.
Proof.
  rewrite (find_files_file_at t directory ds f Hwn Hat).
  now rewrite all_kept_spec, kept_file_spec.
Qed.

Lemma find_files_exactly_witness :
  well_named example_tree = true
  /\ file_at example_tree ["a"] "x.txt"
  /\ (In (path_of "." ["a"] "x.txt") (find_files "." example_tree)
      <-> Forall (fun d => ~ In d EXCLUDE_PATTERNS) ["a"]
          /\ ~ In (PyStr.lower (suffix "x.txt")) BINARY_EXTENSIONS).
Proof.
  assert (H : file_at example_tree ["a"] "x.txt").
  { apply file_below with (sub := Dir [] ["x.txt"]); [now left|].
    apply file_here. now left. }
  split; [reflexivity|]. split; [exact H|].
  exact (find_files_exactly example_tree "." ["a"] "x.txt" eq_refl H).
Defined.

Lemma os_walk_prune t :
  forall top,
    os_walk kept_dir top (prune_excluded t) = os_walk kept_dir top t.
Proof.
  induction t as [|dirs files IH] using tree_induction; intros top;
    [reflexivity|].
  cbn [prune_excluded os_walk]. f_equal.
  - f_equal. f_equal. clear IH.
    induction dirs as [|d dirs IHd]; [reflexivity|].
    cbn [flat_map map filter].
    destruct (kept_dir (fst d)) eqn:E; cbn [app map filter fst].
    + now rewrite E, IHd.
    + exact IHd.
  - rewrite flat_map_flat_map. apply flat_map_ext_In. intros d Hd.
    destruct (kept_dir (fst d)) eqn:E; [|reflexivity].
    cbn [flat_map fst snd]. rewrite E, app_nil_r.
    exact (proj1 (Forall_forall _ _) IH d Hd _).
Qed.

(** X13: the walk does not depend on what lies below an excluded directory:
    two trees that are the same once the excluded sub-directories are cut
    off are walked alike and yield the same files. *)
Theorem find_files_ignores_excluded (t1 t2 : tree) (directory : string)
  (Hsame : prune_excluded t1 = prune_excluded t2) :
  os_walk kept_dir directory t1 = os_walk kept_dir directory t2
  /\ find_files directory t1 = find_files directory t2.
Proof.
  assert (H : os_walk kept_dir directory t1 = os_walk kept_dir directory t2)
    by now rewrite <- (os_walk_prune t1), Hsame, os_walk_prune.
  split; [exact H|]. unfold find_files. now rewrite H.
Qed.

Lemma find_files_ignores_excluded_witness :
  prune_excluded example_tree
  = prune_excluded (Dir [("a", Dir [] ["x.txt"]);
                         ("b", Dir [] ["z.txt"]);
                         ("node_modules", Opaque)] [])
  /\ find_files "." example_tree
     = find_files "." (Dir [("a", Dir [] ["x.txt"]);
                            ("b", Dir [] ["z.txt"]);
                            ("node_modules", Opaque)] []).
Proof.
  split; [reflexivity|].
  exact (proj2 (find_files_ignores_excluded example_tree
                  (Dir [("a", Dir [] ["x.txt"]);
                        ("b", Dir [] ["z.txt"]);
                        ("node_modules", Opaque)] [])
                  "." eq_refl)).
Defined.

Lemma distinct_NoDup l : distinct l = true -> NoDup l.
Proof.
  induction l as [|x l IH]; simpl; intros H; constructor;
    apply andb_true_iff in H as [Hx Hl].
  - apply negb_true_iff in Hx. intros Hin. apply mem_In in Hin.
    now rewrite Hin in Hx.
  - now apply IH.
Qed.

Lemma map_flat_map {A B C} (f : B -> C) (g : A -> list B) l :
  map f (flat_map g l) = flat_map (fun x => map f (g x)) l.
Proof.
  induction l as [|x l IH]; simpl; [reflexivity|].
  now rewrite map_app, IH.
Qed.

Lemma find_files_items t :
  forall directory,
    find_files directory t
    = map (fun it => path_of directory (fst it) (snd it)) (walk_items t).
Proof.
  induction t as [|dirs files IH] using tree_induction; intros directory;
    [reflexivity|].
  rewrite find_files_dir. cbn [walk_items].
  rewrite map_app, map_map, map_flat_map. f_equal.
  apply flat_map_ext_In. intros d Hd.
  destruct (kept_dir (fst d)); [|reflexivity].
  rewrite (proj1 (Forall_forall _ _) IH d Hd), map_map. reflexivity.
Qed.

Lemma walk_items_file_at t :
  forall ds f, In (ds, f) (walk_items t) -> file_at t ds f.
Proof.
  induction t as [|dirs files IH] using tree_induction; intros ds f Hin;
    [destruct Hin|].
  cbn [walk_items] in Hin. apply in_app_iff in Hin as [Hin | Hin].
  - apply in_map_iff in Hin as (g & Heq & Hg). injection Heq as <- <-.
    apply filter_In in Hg as [Hg _]. now constructor.
  - apply in_flat_map in Hin as (d & Hd & Hin).
    destruct (kept_dir (fst d)); [|destruct Hin].
    apply in_map_iff in Hin as ([ds' f'] & Heq & Hin).
    cbn [fst snd] in Heq. injection Heq as <- <-.
    apply file_below with (sub := snd d); [now destruct d|].
    exact (proj1 (Forall_forall _ _) IH d Hd ds' f' Hin).
Qed.

Lemma walk_items_NoDup t : distinct_names t = true -> NoDup (walk_items t).
Proof.
  induction t as [|dirs files IH] using tree_induction; intros H;
    [constructor|].
  cbn [distinct_names] in H.
  apply andb_true_iff in H as [H Hsub].
  apply andb_true_iff in H as [Hfiles Hdirs].
  apply distinct_NoDup in Hfiles, Hdirs.
  cbn [walk_items]. apply NoDup_app.
  - apply NoDup_map_NoDup_ForallPairs; [|now apply NoDup_filter].
    intros x y _ _ Heq. now injection Heq.
  - assert (Hs : Forall (fun d => NoDup (walk_items (snd d))) dirs).
    { apply Forall_forall. intros d Hd.
      apply (proj1 (Forall_forall _ _) IH d Hd).
      exact (proj1 (forallb_forall _ _) Hsub d Hd). }
    clear IH Hsub Hfiles.
    induction dirs as [|d dirs IHd]; [constructor|].
    cbn [map] in Hdirs. inversion Hdirs as [|? ? Hnotin Hdirs']; subst.
    inversion Hs as [|? ? Hd Hs']; subst.
    cbn [flat_map]. apply NoDup_app.
    + destruct (kept_dir (fst d)); [|constructor].
      apply NoDup_map_NoDup_ForallPairs; [|exact Hd].
      intros [xs x] [ys y] _ _ Heq. cbn [fst snd] in Heq.
      now injection Heq as -> ->.
    + now apply IHd.
    + intros a Ha Hb. apply in_flat_map in Hb as (d' & Hd' & Hb).
      destruct (kept_dir (fst d)); [|destruct Ha].
      destruct (kept_dir (fst d')); [|destruct Hb].
      apply in_map_iff in Ha as (x & <- & _).
      apply in_map_iff in Hb as (y & Heq & _).
      injection Heq as Heq _. apply Hnotin. rewrite <- Heq.
      now apply in_map.
  - intros a Ha Hb. apply in_map_iff in Ha as (g & <- & _).
    apply in_flat_map in Hb as (d & _ & Hb).
    destruct (kept_dir (fst d)); [|destruct Hb].
    apply in_map_iff in Hb as (y & Heq & _). discriminate Heq.
Qed.

(** X14: in a well-named tree whose directories hold no name twice,
    [find_files] yields no path twice: no file is searched or reported more
    than once. *)
Theorem find_files_NoDup (t : tree) (directory : string)
  (Hwn : well_named t = true) (Hdn : distinct_names t = true) :
  NoDup (find_files directory t).
Proof.
  rewrite find_files_items.
  apply NoDup_map_NoDup_ForallPairs; [|now apply walk_items_NoDup].
  intros [ds f] [ds' f'] Hin Hin' Heq. cbn [fst snd] in Heq.
  apply walk_items_file_at in Hin, Hin'.
  destruct (file_at_names _ _ _ Hwn Hin) as [Hn Hf].
  destruct (file_at_names _ _ _ Hwn Hin') as [Hn' Hf'].
  destruct (path_of_inj _ _ _ _ _ Hn Hf Hn' Hf' Heq) as [-> ->].
  reflexivity.
Qed.

Lemma find_files_NoDup_witness :
  well_named example_tree = true /\ distinct_names example_tree = true
  /\ NoDup (find_files "." example_tree).
Proof.
  split; [reflexivity|]. split; [reflexivity|].
  exact (find_files_NoDup example_tree "." eq_refl eq_refl).
Defined.

End WalkExtras.

(** ** The path [search_file] reports *)

Section ReportedPath.

(** X15: walking from [.] in a current directory [/c1/.../cn], the path
    [search_file] reports for a yielded file is the yielded path without its
    leading [./]: the names of the directories above the file and the name of
    the file, joined by [/]. *)
Theorem relpath_of_yielded (cs ds : list string) (f : string)
  (Hcs : Forall (fun s => is_proper_name s = true) cs)
  (Hds : Forall (fun s => is_proper_name s = true) ds)
  (Hf : is_proper_name f = true) :
  OsPath.relpath (String OsPath.sep (OsPath.join_sep cs)) (path_of "." ds f)
  = Ok (OsPath.join_sep (ds ++ [f]))
  /\ path_of "." ds f = "./" ++ OsPath.join_sep (ds ++ [f])
  /\ (forall env query fm,
         getcwd env = String OsPath.sep (OsPath.join_sep cs) ->
         fst (search_file env (path_of "." ds f) query) = Some fm ->
         path fm = OsPath.join_sep (ds ++ [f])).
Proof.
  destruct (relpath_walked cs ds f Hcs Hds Hf) as [Hrel Hpath].
  split; [exact Hrel|]. split; [exact Hpath|].
  intros env query fm Hcwd Hfm. unfold search_file in Hfm.
  rewrite Hcwd, Hrel in Hfm.
  destruct (open_read env (path_of "." ds f)); [|discriminate Hfm].
  destruct (find_matches _ query) as [[|i l]|e]; try discriminate Hfm.
  cbn [fst] in Hfm. now injection Hfm as <-.
Qed.

Lemma relpath_of_yielded_witness :
  Forall (fun s => is_proper_name s = true) ["home"; "u"]
  /\ Forall (fun s => is_proper_name s = true) ["a"]
  /\ is_proper_name "x.txt" = true
  /\ OsPath.relpath "/home/u" "./a/x.txt" = Ok "a/x.txt".
Proof.
  assert (H1 : Forall (fun s => is_proper_name s = true) ["home"; "u"])
    by (repeat constructor).
  assert (H2 : Forall (fun s => is_proper_name s = true) ["a"])
    by (repeat constructor).
  split; [exact H1|]. split; [exact H2|]. split; [reflexivity|].
  exact (proj1 (relpath_of_yielded ["home"; "u"] ["a"] "x.txt" H1 H2 eq_refl)).
Defined.

End ReportedPath.

(** ** Worked examples *)

Section Examples.

(** Unescaped, the dot is a wildcard; escaped it is a dot. *)
Example raw_dot_is_wildcard :
  option_map (fun p => Re.finditer_starts p "aXb a.b") (Re.compile "a.b")
  = Some [0; 4]
  /\ find_matches "aXb a.b" "a.b" = Ok [4].
Proof. split; reflexivity. Qed.

(** After an empty match a non-empty one may start at the same offset. *)
Example raw_empty_then_nonempty :
  option_map (fun p => Re.finditer_starts p "a") (Re.compile "|a")
  = Some [0; 0; 1].
Proof. reflexivity. Qed.

Example raw_star :
  option_map (fun p => Re.finditer_starts p "baaac") (Re.compile "a*")
  = Some [0; 1; 4; 5].
Proof. reflexivity. Qed.

Example relpath_of_walked_file :
  OsPath.relpath "/home/u" "./a/x.txt" = Ok "a/x.txt".
Proof. reflexivity. Qed.

Example suffixes :
  map suffix [".bak"; "x.bak"; "x.BAK"; "..bak"; "x."; "x.tar.gz"; "noext"]
  = [""; ".bak"; ".BAK"; ".bak"; ""; ".gz"; ""].
Proof. reflexivity. Qed.

Example end_to_end :
  main example_env example_tree ["worm.py"; "hello"]
  = [ header "hello";
      nl ++ "Found in: a/x.txt";
      "Context: ...hello world...";
      str_mul "-" 80;
      "Error processing ./b/z.txt: [Errno 13] Permission denied: './b/z.txt'" ].
Proof. reflexivity. Qed.

Example end_to_end_no_match :
  main example_env example_tree ["worm.py"; "absent"]
  = [ header "absent";
      "Error processing ./b/z.txt: [Errno 13] Permission denied: './b/z.txt'";
      "No matches found." ].
Proof. reflexivity. Qed.

Example usage_without_query :
  main example_env example_tree ["worm.py"] = usage_lines.
Proof. reflexivity. Qed.

End Examples.
